(** * TerriaJS: the [Terria] application state object and the [SearchBox] view

    A shallow embedding of the [Terria] class of [lib/Models] and of
    [lib/ReactViews/Search/SearchBox.jsx].  JavaScript values that come out of
    JSON files are a tagged union, JavaScript objects used as dictionaries and
    the observable model map are finite maps, methods that mutate [this] or
    throw are computations in a state-and-exception monad. *)

From Stdlib Require Import ZArith Ascii String.
From stdpp Require Import base option list strings gmap pretty.

#[local] Set Warnings "-register-all".


(** ** JavaScript values, exceptions and strings *)

Module Js.

(** Values as [loadJson5] produces them, plus [undefined].  Numbers are the
    integer-valued ones; the code under study only tests them for truth. *)
Inductive JsValue : Type :=
| JsUndefined
| JsNull
| JsBool (b : bool)
| JsNumber (n : Z)
| JsString (s : string)
| JsArray (items : list JsValue)
| JsObject (props : gmap string JsValue).

Inductive JsError : Type :=
| TypeError
| SecurityError
| RuntimeError (message : string).

(** The outcome of evaluating an expression or a call. *)
Inductive Completion (A : Type) : Type :=
| Normal (a : A)
| Throw (e : JsError).
Arguments Normal {A} a.
Arguments Throw {A} e.

#[global] Instance completion_ret : MRet Completion := @Normal.
#[global] Instance completion_bind : MBind Completion := fun A B f c =>
  match c with
  | Normal a => f a
  | Throw e => Throw e
  end.

(** Computations over a mutable state [S] that may throw.  The state reached
    when an exception leaves the computation is kept. *)
Definition Eff (S A : Type) : Type := S -> Completion A * S.

Definition eff_ret {S A} (a : A) : Eff S A := fun s => (Normal a, s).
Definition eff_bind {S A B} (m : Eff S A) (f : A -> Eff S B) : Eff S B :=
  fun s =>
    match m s with
    | (Normal a, s') => f a s'
    | (Throw e, s') => (Throw e, s')
    end.
Definition throw {S A} (e : JsError) : Eff S A := fun s => (Throw e, s).
Definition read {S} : Eff S S := fun s => (Normal s, s).
Definition modify {S} (f : S -> S) : Eff S unit := fun s => (Normal tt, f s).
Definition eval {S A} (c : Completion A) : Eff S A := fun s => (c, s).

(** [try { body } catch (e) { handler e }] *)
Definition try_catch {S A} (body : Eff S A) (handler : JsError -> Eff S A) : Eff S A :=
  fun s =>
    match body s with
    | (Normal a, s') => (Normal a, s')
    | (Throw e, s') => handler e s'
    end.

#[global] Instance eff_ret_inst {S} : MRet (Eff S) := fun A => @eff_ret S A.
#[global] Instance eff_bind_inst {S} : MBind (Eff S) := fun A B f m => eff_bind m f.

(** ToBoolean *)
Definition truthy (v : JsValue) : bool :=
  match v with
  | JsUndefined | JsNull => false
  | JsBool b => b
  | JsNumber n => negb (n =? 0)%Z
  | JsString s => negb (String.eqb s "")
  | JsArray _ | JsObject _ => true
  end.

(** [v !== undefined] *)
Definition notUndefined (v : JsValue) : bool :=
  match v with
  | JsUndefined => false
  | _ => true
  end.

(** [undefined] and [null], the values that have no properties. *)
Definition isNullish (v : JsValue) : bool :=
  match v with
  | JsUndefined | JsNull => true
  | _ => false
  end.

(** [v.k] for a property name [k] that is neither ["length"], an array index
    nor a member of a built-in prototype, which holds of every name the code
    reads.  Reading a property of [undefined] or [null] is a [TypeError];
    other primitives and arrays have no such property. *)
Definition getProp (v : JsValue) (k : string) : Completion JsValue :=
  match v with
  | JsUndefined | JsNull => Throw TypeError
  | JsObject props => Normal (default JsUndefined (props !! k))
  | JsBool _ | JsNumber _ | JsString _ | JsArray _ => Normal JsUndefined
  end.

(** [k in v] for an object [v]. *)
Definition hasProp (v : JsValue) (k : string) : bool :=
  match v with
  | JsObject props => bool_decide (is_Some (props !! k))
  | _ => false
  end.

(** The own enumerable properties that [...v] copies into an object literal:
    those of an object, the indexed elements of an array, the indexed
    characters of a string, nothing for the other values. *)
Definition indexed {A} (f : A -> JsValue) (l : list A) : gmap string JsValue :=
  list_to_map (imap (fun i x => (pretty i, f x)) l).

Definition spreadProps (v : JsValue) : gmap string JsValue :=
  match v with
  | JsObject props => props
  | JsArray items => indexed id items
  | JsString s => indexed (fun c => JsString (String c EmptyString)) (list_ascii_of_string s)
  | JsUndefined | JsNull | JsBool _ | JsNumber _ => ∅
  end.

(** The members of an object literal, in source order. *)
Inductive Member : Type :=
| Prop_ (k : string) (v : JsValue)
| Spread (v : JsValue).

(** Evaluation of an object literal: a later member overrides an earlier one
    of the same name. *)
Definition objectLiteral (members : list Member) : JsValue :=
  JsObject
    (foldl (fun acc m =>
              match m with
              | Prop_ k v => <[k := v]> acc
              | Spread v => spreadProps v ∪ acc
              end) ∅ members).

(** [array.map(f)] where [f] may throw; a value that is not an array has no
    callable [map]. *)
Definition arrayMap (f : JsValue -> Completion JsValue) (v : JsValue)
  : Completion (list JsValue) :=
  match v with
  | JsArray items => mapM f items
  | _ => Throw TypeError
  end.

(** *** Strings.  Characters are the code units 0 to 255. *)

(** [toLowerCase] on one code unit: A-Z, and the upper case letters of
    Latin-1 (U+00C0 to U+00DE without the multiplication sign U+00D7). *)
Definition lowerChar (c : ascii) : ascii :=
  let n := nat_of_ascii c in
  if ((65 <=? n) && (n <=? 90))%nat then ascii_of_nat (n + 32)
  else if ((192 <=? n) && (n <=? 222) && negb (n =? 215))%nat then ascii_of_nat (n + 32)
  else c.

Fixpoint toLowerCase (s : string) : string :=
  match s with
  | EmptyString => EmptyString
  | String c rest => String (lowerChar c) (toLowerCase rest)
  end.

Fixpoint dropChars (n : nat) (s : string) : string :=
  match n, s with
  | O, _ => s
  | S _, EmptyString => EmptyString
  | S n', String _ rest => dropChars n' rest
  end.

(** [s.substring(start)]: a negative [start] counts as 0, one beyond the end
    as the length. *)
Definition substring (start : Z) (s : string) : string :=
  dropChars (Z.to_nat (Z.max 0 start)) s.

(** [v === s] for a string literal [s]. *)
Definition strictEqualsString (v : JsValue) (s : string) : bool :=
  match v with
  | JsString x => String.eqb x s
  | _ => false
  end.

(** [String(v)] as [+] applies it to an operand that is a string or
    [undefined]. *)
Definition toStringOperand (v : option string) : string :=
  match v with
  | Some s => s
  | None => "undefined"
  end.

(** [s.lastIndexOf(c)] for a one-character [c]: the position of the last
    occurrence, or -1.  [lastIndexOf_from] scans [s], whose first character
    has position [i], with [found] the answer so far. *)
Fixpoint lastIndexOf_from (c : ascii) (s : string) (i found : Z) : Z :=
  match s with
  | EmptyString => found
  | String x rest =>
      lastIndexOf_from c rest (i + 1)%Z (if Ascii.eqb x c then i else found)
  end.

Definition lastIndexOf (c : ascii) (s : string) : Z :=
  lastIndexOf_from c s 0%Z (-1)%Z.

End Js.
Export Js.

(** ** Classes and objects *)

(** A class is known by its name; an object records the classes on its
    prototype chain, which is what [instanceof] walks. *)
Definition Class : Type := string.

Definition instanceof (prototypeChain : list Class) (type : Class) : bool :=
  bool_decide (type ∈ prototypeChain).

Module ModelReference.

(** Modelled from the spec: [lib/Traits/ModelReference] is not among the
    sources.  A reference is the id string of a model or the marker of a
    removed model; [isRemoved] is the type guard for the marker. *)
Inductive t : Type :=
| ModelId (id : string)
| RemovedModelId.

Definition isRemoved (id : t) : bool :=
  match id with
  | RemovedModelId => true
  | ModelId _ => false
  end.

End ModelReference.
Export ModelReference (ModelId, RemovedModelId).

(** Modelled from the spec: [lib/Models/Model] is not among the sources.
    A [BaseModel] has an id and is an instance of its classes. *)
Record BaseModel : Type := {
  id : ModelReference.t;
  modelClasses : list Class;
}.

(** Modelled from the spec: [lib/Core/instanceOf] is not among the sources.
    [instanceOf(type, instance)] is [instance instanceof type], false of
    [undefined]. *)
Definition instanceOf (type : Class) (instance : option BaseModel) : bool :=
  match instance with
  | Some model => instanceof (modelClasses model) type
  | None => false
  end.

(** Modelled from the spec: [lib/Models/GlobeOrMap], [Cesium], [Leaflet] and
    [NoViewer] are not among the sources.  A [GlobeOrMap] is a map rendering
    backend, an instance of its classes. *)
Record GlobeOrMap : Type := {
  backendClasses : list Class;
}.

Definition Cesium : Class := "Cesium".
Definition Leaflet : Class := "Leaflet".
Definition NoViewer : Class := "NoViewer".

(** Modelled from the spec: [lib/ViewModels/TerriaViewer] is not among the
    sources.  The [currentViewer] of a [TerriaViewer] is a backend object, or
    absent ([None], which is falsy). *)
Module TerriaViewer.
Record t : Type := {
  viewerClasses : list Class;
  currentViewer : option GlobeOrMap;
}.
End TerriaViewer.

(** Modelled from the spec: [lib/Models/CommonStrata] is not among the
    sources.  [definition] is the stratum the code names. *)
Inductive CommonStrata : Type :=
| definition
| stratum (name : string).

(** ** The [Terria] class *)

Module Terria.

(** Modelled from the spec: [lib/Models/updateModelFromJson] is not among the
    sources.  The catalog group is represented by the JSON that was merged
    into it, stratum by stratum, oldest first. *)
Definition CatalogGroup : Type := list (CommonStrata * JsValue).

(** The fields of a [Terria] instance that its methods read or write. *)
Record Terria : Type := {
  models : gmap string BaseModel;
  mainViewer : option TerriaViewer.t;
  appName : option string;
  userProperties : gmap string JsValue;
  stories : JsValue;
  catalog_group : CatalogGroup;
}.

Definition set_models (f : gmap string BaseModel -> gmap string BaseModel) (t : Terria) : Terria :=
  {| models := f (models t); mainViewer := mainViewer t; appName := appName t;
     userProperties := userProperties t; stories := stories t;
     catalog_group := catalog_group t |}.

Definition set_stories (v : JsValue) (t : Terria) : Terria :=
  {| models := models t; mainViewer := mainViewer t; appName := appName t;
     userProperties := userProperties t; stories := v;
     catalog_group := catalog_group t |}.

Definition set_catalog_group (f : CatalogGroup -> CatalogGroup) (t : Terria) : Terria :=
  {| models := models t; mainViewer := mainViewer t; appName := appName t;
     userProperties := userProperties t; stories := stories t;
     catalog_group := f (catalog_group t) |}.

(** The instance the field initialisers build. *)
Definition new : Terria :=
  {| models := ∅; mainViewer := None; appName := None; userProperties := ∅;
     stories := JsArray []; catalog_group := [] |}.

(** Modelled from the spec: [lib/Models/NoViewer] is not among the sources.
    [new NoViewer(terria)] is a backend of class [NoViewer]. *)
Definition new_NoViewer (this : Terria) : GlobeOrMap :=
  {| backendClasses := [NoViewer; "GlobeOrMap"] |}.

(** [a && b] and [a || b] where [a] is an object or [undefined]. *)
Definition andAlso {A B} (a : option A) (b : A -> option B) : option B :=
  match a with
  | Some x => b x
  | None => None
  end.

Definition orElse {A} (a : option A) (b : option A) : option A :=
  match a with
  | Some x => Some x
  | None => b
  end.

Definition currentViewer (this : Terria) : option GlobeOrMap :=
  orElse (andAlso (mainViewer this) TerriaViewer.currentViewer)
         (Some (new_NoViewer this)).

(** Modelled from the spec: [lib/Core/isDefined] is not among the sources.
    [isDefined(value)] is [value !== undefined]. *)
Definition isDefined {A} (value : option A) : bool :=
  match value with
  | Some _ => true
  | None => false
  end.

(** [viewer instanceof type] for a viewer that may be [undefined]. *)
Definition viewerInstanceof (viewer : option TerriaViewer.t) (type : Class) : bool :=
  match viewer with
  | Some v => instanceof (TerriaViewer.viewerClasses v) type
  | None => false
  end.

(** A getter that falls off its end returns [undefined]. *)
Definition cesium (this : Terria) : option TerriaViewer.t :=
  if isDefined (mainViewer this) && viewerInstanceof (mainViewer this) Cesium
  then mainViewer this
  else None.

Definition leaflet (this : Terria) : option TerriaViewer.t :=
  if isDefined (mainViewer this) && viewerInstanceof (mainViewer this) Leaflet
  then mainViewer this
  else None.

Definition getModelById (type : Class) (id : ModelReference.t)
  : Eff Terria (option BaseModel) :=
  match id with
  | RemovedModelId => mret None
  | ModelId key =>
      this ← read;
      let model := models this !! key in
      if instanceOf type model then mret model
      else mret None
  end.

Definition addModel (model : BaseModel) : Eff Terria unit :=
  match id model with
  | RemovedModelId => mret tt
  | ModelId key =>
      this ← read;
      if bool_decide (is_Some (models this !! key))
      then throw (RuntimeError "A model with the specified ID already exists.")
      else modify (set_models (insert key model))
  end.

Definition getUserProperty (this : Terria) (key : string) : JsValue :=
  JsUndefined.

(** What the callback on an init file is to leave in the instance, given
    the [catalog] and [stories] of the file. *)
Definition afterInit (catalog init_stories : JsValue) (this : Terria) : Terria :=
  {| models := models this; mainViewer := mainViewer this; appName := appName this;
     userProperties := userProperties this;
     stories := if notUndefined init_stories then init_stories else stories this;
     catalog_group :=
       if notUndefined catalog
       then catalog_group this ++ [(definition, JsObject {[ "members" := catalog ]})]
       else catalog_group this |}.

(** How [getLocalProperty] reads a stored string back. *)
Definition readBack (v : string) : JsValue :=
  if String.eqb v "true" then JsBool true
  else if String.eqb v "false" then JsBool false
  else JsString v.

(** *** The constructor *)

(** Modelled from the spec: [lib/Core/GoogleAnalytics] and
    [lib/Core/ConsoleAnalytics] are not among the sources.  An analytics
    object is one of the two, or the one the caller passed. *)
Inductive Analytics : Type :=
| GivenAnalytics (name : string)
| GoogleAnalytics
| ConsoleAnalytics.

(** [TerriaOptions]; an absent [analytics] stands for [undefined] and
    [null]. *)
Record TerriaOptions : Type := {
  options_baseUrl : option string;
  options_analytics : option Analytics;
}.

(** What the constructor computes besides the field initialisers. *)
Record Constructed : Type := {
  instance : Terria;
  baseUrl : string;
  analytics : Analytics;
}.

(** [new Terria(options)], where [window_ga] tells whether [window] exists
    and has a defined [ga]. *)
Definition constructor (window_ga : bool) (options : TerriaOptions) : Constructed :=
  let baseUrl :=
    match options_baseUrl options with
    | Some url =>
        if truthy (JsString url) then
          if negb (lastIndexOf "/" url =? Z.of_nat (String.length url) - 1)%Z
          then url +:+ "/"
          else url
        else "build/TerriaJS/"
    | None => "build/TerriaJS/"
    end in
  let analytics :=
    match options_analytics options with
    | Some given => given
    | None => if window_ga then GoogleAnalytics else ConsoleAnalytics
    end in
  {| instance := new; baseUrl := baseUrl; analytics := analytics |}.

(** *** The browser around the instance *)

(** What evaluating [window.localStorage] gives.  Storing an item always
    succeeds: no quota is modelled. *)
Inductive LocalStorage : Type :=
| Blocked (e : JsError)
| Missing
| Storage (items : gmap string string).

(** [urijs], a third-party library, through the operations the code calls. *)
Class UriLib : Type := {
  URI : Type;
  URI_new : string -> URI;
  URI_filename : string -> URI -> URI;
  URI_absoluteTo : URI -> URI -> URI;
  URI_toString : URI -> string;
}.

Section Browser.
Context {uriLib : UriLib}.

(** The two closures that [start] passes to [then], with what they capture
    besides [this]. *)
Inductive Callback : Type :=
| OnConfigLoaded (baseUri : URI)
| OnInitLoaded.

(** [pending] holds the [loadJson5] requests in flight, oldest first, each
    with the callback that receives the parsed file. *)
Record World : Type := {
  terria : Terria;
  window_localStorage : LocalStorage;
  pending : list (string * Callback);
}.

Definition set_terria (f : Terria -> Terria) (w : World) : World :=
  {| terria := f (terria w); window_localStorage := window_localStorage w;
     pending := pending w |}.

Definition set_localStorage (ls : LocalStorage) (w : World) : World :=
  {| terria := terria w; window_localStorage := ls; pending := pending w |}.

Definition set_pending (f : list (string * Callback) -> list (string * Callback))
    (w : World) : World :=
  {| terria := terria w; window_localStorage := window_localStorage w;
     pending := f (pending w) |}.

(** Modelled from the spec: [lib/Core/loadJson5] is not among the sources.
    [loadJson5(url).then(callback)] puts a request in flight. *)
Definition loadJson5_then (url : string) (callback : Callback) : Eff World unit :=
  modify (set_pending (fun reqs => reqs ++ [(url, callback)])).

(** Modelled from the spec: [lib/Models/updateModelFromJson] is not among
    the sources.  The call on the catalog group records the merged JSON. *)
Definition updateModelFromJson_catalog_group (stratum : CommonStrata) (json : JsValue)
  : Eff World unit :=
  modify (set_terria (set_catalog_group (fun g => g ++ [(stratum, json)]))).

(** The arrow function that [loadMagdaConfig] maps over the members. *)
Definition magdaMember (member : JsValue) : Completion JsValue :=
  aspects ← getProp member "aspects";
  if negb (truthy aspects) then mret JsUndefined
  else
    terria ← getProp aspects "terria";
    if negb (truthy terria) then mret JsUndefined
    else
      group ← getProp aspects "group";
      if truthy group then
        member_id ← getProp member "id";
        member_name ← getProp member "name";
        terria_type ← getProp terria "type";
        group_members ← getProp group "members";
        terria_definition ← getProp terria "definition";
        mret (objectLiteral
                [Prop_ "id" member_id;
                 Prop_ "name" member_name;
                 Prop_ "type" (JsString "magda-group");
                 Prop_ "url" (JsString "http://saas.terria.io");
                 Prop_ "groupId" member_id;
                 Prop_ "definition"
                   (objectLiteral
                      [Prop_ "type" terria_type;
                       Prop_ "members" group_members;
                       Spread terria_definition])])
      else
        member_id ← getProp member "id";
        member_name ← getProp member "name";
        terria_type ← getProp terria "type";
        terria_definition ← getProp terria "definition";
        mret (objectLiteral
                [Prop_ "id" member_id;
                 Prop_ "name" member_name;
                 Prop_ "type" terria_type;
                 Spread terria_definition]).

(** The value of property [k] of [v], [undefined] where there is none. *)
Definition propOf (v : JsValue) (k : string) : JsValue :=
  match v with
  | JsObject props => default JsUndefined (props !! k)
  | _ => JsUndefined
  end.

(** The mapping of a Magda member to a catalog node, as the specification
    words it, case by case. *)
Inductive magdaNode (member : JsValue) : JsValue -> Prop :=
| node_without_aspects :
    truthy (propOf member "aspects") = false ->
    magdaNode member JsUndefined
| node_without_terria :
    truthy (propOf (propOf member "aspects") "terria") = false ->
    magdaNode member JsUndefined
| node_of_group (node definition_ : gmap string JsValue) :
    let aspects := propOf member "aspects" in
    let terria := propOf aspects "terria" in
    truthy aspects = true ->
    truthy terria = true ->
    truthy (propOf aspects "group") = true ->
    node !! "type" = Some (JsString "magda-group") ->
    node !! "id" = Some (propOf member "id") ->
    node !! "name" = Some (propOf member "name") ->
    node !! "groupId" = Some (propOf member "id") ->
    node !! "definition" = Some (JsObject definition_) ->
    definition_
    = spreadProps (propOf terria "definition")
      ∪ {[ "type" := propOf terria "type";
           "members" := propOf (propOf aspects "group") "members" ]} ->
    magdaNode member (JsObject node)
| node_of_item (node : gmap string JsValue) :
    let aspects := propOf member "aspects" in
    let terria := propOf aspects "terria" in
    truthy aspects = true ->
    truthy terria = true ->
    truthy (propOf aspects "group") = false ->
    node
    = spreadProps (propOf terria "definition")
      ∪ {[ "id" := propOf member "id";
           "name" := propOf member "name";
           "type" := propOf terria "type" ]} ->
    magdaNode member (JsObject node).

Definition loadMagdaConfig (config : JsValue) : Eff World unit :=
  aspects ← eval (getProp config "aspects");
  group ← eval (getProp aspects "group");
  (* aspects.group && aspects.group.members *)
  condition ← (if truthy group then eval (getProp group "members") else mret group);
  if truthy condition then
    group_members ← eval (getProp group "members");
    members ← eval (arrayMap magdaMember group_members);
    updateModelFromJson_catalog_group definition
      (objectLiteral [Prop_ "members" (JsArray members)])
  else mret tt.

(** [loadMagdaConfig] with the merge left open: [merge stratum json] stands
    for [updateModelFromJson(this.catalog.group, stratum, json)], whatever
    that function does. *)
Definition loadMagdaConfigWith (merge : CommonStrata -> JsValue -> Eff World unit)
    (config : JsValue) : Eff World unit :=
  aspects ← eval (getProp config "aspects");
  group ← eval (getProp aspects "group");
  condition ← (if truthy group then eval (getProp group "members") else mret group);
  if truthy condition then
    group_members ← eval (getProp group "members");
    members ← eval (arrayMap magdaMember group_members);
    merge definition (objectLiteral [Prop_ "members" (JsArray members)])
  else mret tt.

(** What [generateInitializationUrl] returns: the object literal, or a
    string. *)
Inductive InitSource : Type :=
| InitFragment (baseUri : URI) (initFragment : string)
| InitUrl (url : string).

Definition generateInitializationUrl (baseUri : URI) (url : string) : InitSource :=
  if negb (String.eqb
             (substring (Z.of_nat (String.length url) - 5)%Z (toLowerCase url))
             ".json")
  then InitFragment baseUri url
  else InitUrl (URI_toString (URI_absoluteTo (URI_new url) baseUri)).

(** The test as the specification words it: the last five characters,
    lowercased. *)
Definition lastFiveLowercased (url : string) : string :=
  toLowerCase (substring (Z.of_nat (String.length url) - 5)%Z url).

(** [fragmentObject.initFragment] and [fragmentObject.baseUri]: a string has
    neither property. *)
Definition initFragment_of (fragmentObject : InitSource) : option string :=
  match fragmentObject with
  | InitFragment _ fragment => Some fragment
  | InitUrl _ => None
  end.

Definition baseUri_of (fragmentObject : InitSource) : option URI :=
  match fragmentObject with
  | InitFragment baseUri _ => Some baseUri
  | InitUrl _ => None
  end.

Definition buildInitUrlFromFragment (path : string) (fragmentObject : InitSource) : URI :=
  let uri := URI_new (path +:+ toStringOperand (initFragment_of fragmentObject) +:+ ".json") in
  match baseUri_of fragmentObject with
  | Some baseUri => URI_absoluteTo uri baseUri
  | None => uri
  end.

(** The URL that [start] loads for one entry of [initializationUrls]. *)
Definition initUrl (baseUri : URI) (initializationUrl : string) : string :=
  URI_toString
    (buildInitUrlFromFragment "init/"
       (generateInitializationUrl baseUri initializationUrl)).

(** What the specification asks of the request made for an entry of
    [initializationUrls]: it carries the init callback, and for an entry
    that does not end in [.json] it is for the referenced init file,
    ["init/" + entry + ".json"] against the base URI of the configuration. *)
Definition initRequestFor (baseUri : URI) (entry : string)
    (request : string * Callback) : Prop :=
  request.2 = OnInitLoaded /\
  (lastFiveLowercased entry <> ".json" ->
   request.1
   = URI_toString (URI_absoluteTo (URI_new ("init/" +:+ entry +:+ ".json")) baseUri)).

(** The callback on the init file. *)
Definition onInitLoaded (initData : JsValue) : Eff World unit :=
  catalog ← eval (getProp initData "catalog");
  (if notUndefined catalog
   then updateModelFromJson_catalog_group definition
          (objectLiteral [Prop_ "members" catalog])
   else mret tt);;
  init_stories ← eval (getProp initData "stories");
  if notUndefined init_stories
  then modify (set_terria (set_stories init_stories))
  else mret tt.

(** [array.map(f)] for an [f] with effects, its results dropped. *)
Fixpoint forEach (f : JsValue -> Eff World unit) (items : list JsValue) : Eff World unit :=
  match items with
  | [] => mret tt
  | item :: rest => f item;; forEach f rest
  end.

(** The callback on the configuration file.  [toLowerCase] exists on strings
    only, [map] on arrays only. *)
Definition onConfigLoaded (baseUri : URI) (config : JsValue) : Eff World unit :=
  aspects ← eval (getProp config "aspects");
  if truthy aspects then loadMagdaConfig config
  else
    initializationUrls ← eval (getProp config "initializationUrls");
    match initializationUrls with
    | JsArray items =>
        forEach (fun initializationUrl =>
                   match initializationUrl with
                   | JsString url => loadJson5_then (initUrl baseUri url) OnInitLoaded
                   | _ => throw TypeError
                   end) items
    | _ => throw TypeError
    end.

Record StartOptions : Type := {
  configUrl : string;
}.

Definition start (options : StartOptions) : Eff World unit :=
  let baseUri := URI_filename "" (URI_new (configUrl options)) in
  loadJson5_then (configUrl options) (OnConfigLoaded baseUri).

Definition runCallback (callback : Callback) (response : JsValue) : Eff World unit :=
  match callback with
  | OnConfigLoaded baseUri => onConfigLoaded baseUri response
  | OnInitLoaded => onInitLoaded response
  end.

(** The request at position [i] of [pending] completes with the parsed
    [response]: it leaves [pending] and its callback runs.  Requests may
    complete in any order. *)
Definition resolve (i : nat) (response : JsValue) (w : World)
  : option (Completion unit * World) :=
  match pending w !! i with
  | Some (_, callback) => Some (runCallback callback response (set_pending (delete i) w))
  | None => None
  end.

(** *** Local storage *)

(** [defined] of Cesium: neither [undefined] nor [null]. *)
Definition defined {A} (value : option A) : bool :=
  match value with
  | Some _ => true
  | None => false
  end.

(** Evaluates [window.localStorage]. *)
Definition get_window_localStorage : Eff World (option (gmap string string)) :=
  w ← read;
  match window_localStorage w with
  | Blocked e => throw e
  | Missing => mret None
  | Storage items => mret (Some items)
  end.

Definition getItem (key : string) : Eff World JsValue :=
  storage ← get_window_localStorage;
  match storage with
  | Some items =>
      mret (match items !! key with
            | Some v => JsString v
            | None => JsNull
            end)
  | None => throw TypeError
  end.

Definition setItem (key value : string) : Eff World unit :=
  storage ← get_window_localStorage;
  match storage with
  | Some items => modify (set_localStorage (Storage (<[key := value]> items)))
  | None => throw TypeError
  end.

(** [this.appName + "." + key] *)
Definition localKey (this : Terria) (key : string) : string :=
  toStringOperand (appName this) +:+ "." +:+ key.

(** The guard both methods start with; [Some r] stands for [return r]. *)
Definition localStorageGuard {R} (r : R) : Eff World (option R) :=
  try_catch
    (storage ← get_window_localStorage;
     if negb (defined storage) then mret (Some r) else mret None)
    (fun _ => mret (Some r)).

Definition getLocalProperty (key : string) : Eff World JsValue :=
  returned ← localStorageGuard JsNull;
  match returned with
  | Some r => mret r
  | None =>
      w ← read;
      v ← getItem (localKey (terria w) key);
      if strictEqualsString v "true" then mret (JsBool true)
      else if strictEqualsString v "false" then mret (JsBool false)
      else mret v
  end.

(** A [string | boolean] argument. *)
Inductive LocalValue : Type :=
| LocalString (s : string)
| LocalBool (b : bool).

Definition LocalValue_toString (value : LocalValue) : string :=
  match value with
  | LocalString s => s
  | LocalBool true => "true"
  | LocalBool false => "false"
  end.

Definition setLocalProperty (key : string) (value : LocalValue) : Eff World bool :=
  returned ← localStorageGuard false;
  match returned with
  | Some r => mret r
  | None =>
      w ← read;
      setItem (localKey (terria w) key) (LocalValue_toString value);;
      mret true
  end.

End Browser.

End Terria.

(** ** The [SearchBox] component *)

Module SearchBox.

Definition DEBOUNCE_INTERVAL : nat := 1000.

(** The calls the component makes to the callbacks in its props. *)
Inductive Call : Type :=
| onSearchTextChanged (value : string)
| onDoSearch
| onClear.

Record Props : Type := {
  searchText : string;
  debounceDuration : option nat;
  has_onClear : bool;
}.

(** [debounce(func, wait)] of lodash: calling the wrapper (re)starts a timer
    of [wait] milliseconds, [cancel] drops it, and [func] runs when the timer
    runs out.  [timer] is the time left while a call is scheduled. *)
Record Debounced : Type := {
  wait : nat;
  timer : option nat;
}.

Definition debounce (wait : nat) : Debounced :=
  {| wait := wait; timer := None |}.

(** [calls] lists the calls made so far, oldest first. *)
Record Component : Type := {
  props : Props;
  searchWithDebounce : Debounced;
  calls : list Call;
}.

Record ChangeEvent : Type := {
  target_value : string;
}.

Definition set_searchWithDebounce (f : Debounced -> Debounced) (c : Component) : Component :=
  {| props := props c; searchWithDebounce := f (searchWithDebounce c); calls := calls c |}.

Definition call (f : Call) : Eff Component unit :=
  modify (fun c =>
            {| props := props c; searchWithDebounce := searchWithDebounce c;
               calls := calls c ++ [f] |}).

(** [this.searchWithDebounce.cancel()] *)
Definition removeDebounce : Eff Component unit :=
  modify (set_searchWithDebounce (fun d => {| wait := wait d; timer := None |})).

Definition search : Eff Component unit :=
  removeDebounce;;
  call onDoSearch.

(** [this.searchWithDebounce()] *)
Definition call_searchWithDebounce : Eff Component unit :=
  modify (set_searchWithDebounce (fun d => {| wait := wait d; timer := Some (wait d) |})).

Definition UNSAFE_componentWillMount : Eff Component unit :=
  modify (set_searchWithDebounce (fun _ => debounce DEBOUNCE_INTERVAL)).

Definition hasValue (c : Component) : bool :=
  (0 <? String.length (searchText (props c)))%nat.

Definition handleChange (event : ChangeEvent) : Eff Component unit :=
  let value := target_value event in
  this ← read;
  if (String.length (searchText (props this)) =? 0)%nat then
    call (onSearchTextChanged value);;
    search
  else
    call (onSearchTextChanged value);;
    call_searchWithDebounce.

Definition clearSearch : Eff Component unit :=
  call (onSearchTextChanged "");;
  search;;
  this ← read;
  if has_onClear (props this) then call onClear else mret tt.

Definition onKeyDown (keyCode : Z) : Eff Component unit :=
  if (keyCode =? 13)%Z then search else mret tt.

(** [componentDidUpdate(prevProps)], run with the new props in place.
    Durations are whole numbers of milliseconds; an absent one compares
    false with 0. *)
Definition componentDidUpdate (prevProps : Props) : Eff Component unit :=
  this ← read;
  let changed :=
    negb (bool_decide (debounceDuration prevProps = debounceDuration (props this))) in
  match debounceDuration (props this) with
  | Some duration =>
      if changed && (0 <? duration)%nat then
        removeDebounce;;
        modify (set_searchWithDebounce (fun _ => debounce duration))
      else mret tt
  | None => mret tt
  end.

Definition componentWillUnmount : Eff Component unit :=
  removeDebounce.

(** The part of lodash's [debounce] that runs by itself: [ms] milliseconds
    pass.  A scheduled call whose time has come is taken off the timer and
    the debounced function, [search], runs; otherwise the time left
    shrinks. *)
Definition elapse (ms : nat) : Eff Component unit :=
  this ← read;
  match timer (searchWithDebounce this) with
  | Some remaining =>
      if (remaining <=? ms)%nat then
        modify (set_searchWithDebounce (fun d => {| wait := wait d; timer := None |}));;
        search
      else
        modify (set_searchWithDebounce
                  (fun d => {| wait := wait d; timer := Some (remaining - ms) |}))
  | None => mret tt
  end.

(** A user typing: before each change event a pause, in milliseconds. *)
Fixpoint typing (keystrokes : list (nat * ChangeEvent)) : Eff Component unit :=
  match keystrokes with
  | [] => mret tt
  | (pause, event) :: rest => elapse pause;; handleChange event;; typing rest
  end.

(** The component with its timer set to [t] and [more] calls made. *)
Definition after (c : Component) (t : option nat) (more : list Call) : Component :=
  {| props := props c;
     searchWithDebounce := {| wait := wait (searchWithDebounce c); timer := t |};
     calls := calls c ++ more |}.

End SearchBox.

(** ** Sample data *)

Module Samples.
Import Terria.

(** A stand-in for [urijs] on URLs written as plain strings: [filename]
    replaces what follows the last slash, [absoluteTo] puts a relative
    reference behind the base and keeps one that names its host. *)
Fixpoint directory (s : string) : string :=
  match s with
  | EmptyString => EmptyString
  | String c rest =>
      let d := directory rest in
      if String.eqb d "" then (if Ascii.eqb c "/" then "/" else "")
      else String c d
  end.

Definition plainUri : UriLib :=
  {| URI := string;
     URI_new := fun s => s;
     URI_filename := fun v uri => directory uri +:+ v;
     URI_absoluteTo := fun uri base =>
       if String.prefix "http://" uri || String.prefix "https://" uri
       then uri else directory base +:+ uri;
     URI_toString := fun uri => uri |}.

Definition wmsItem : BaseModel :=
  {| id := ModelId "roads"; modelClasses := ["WebMapServiceCatalogItem"; "BaseModel"] |}.

Definition withRoads : Terria :=
  set_models (insert "roads" wmsItem) new.

Definition leafletBackend : GlobeOrMap :=
  {| backendClasses := ["Leaflet"; "GlobeOrMap"] |}.

Definition leafletViewer : TerriaViewer.t :=
  {| TerriaViewer.viewerClasses := ["Leaflet"; "GlobeOrMap"];
     TerriaViewer.currentViewer := Some leafletBackend |}.

Definition cesiumViewer : TerriaViewer.t :=
  {| TerriaViewer.viewerClasses := ["Cesium"; "GlobeOrMap"];
     TerriaViewer.currentViewer := None |}.

Definition withViewer (viewer : TerriaViewer.t) : Terria :=
  {| models := ∅; mainViewer := Some viewer; appName := Some "map";
     userProperties := {["hideExplorerPanel" := JsString "1"]};
     stories := JsArray []; catalog_group := [] |}.

Definition browser (storage : LocalStorage) : @World plainUri :=
  {| terria := withViewer leafletViewer; window_localStorage := storage; pending := [] |}.

(** A configuration file whose [aspects] is present and [false]. *)
Definition plainConfig : JsValue :=
  JsObject {[ "aspects" := JsBool false;
              "initializationUrls" := JsArray [JsString "terria"] ]}.

(** A Magda record with a [terria] aspect and a [group] aspect that is
    present and [false]. *)
Definition plainMember : JsValue :=
  JsObject {[ "id" := JsString "m1";
              "name" := JsString "Roads";
              "aspects" := JsObject {[ "terria" := JsObject {[ "type" := JsString "wms" ]};
                                       "group" := JsBool false ]} ]}.

Definition groupMember : JsValue :=
  JsObject {[ "id" := JsString "g1";
              "name" := JsString "Transport";
              "aspects" :=
                JsObject {[ "terria" := JsObject {[ "type" := JsString "group";
                                                    "definition" := JsObject {[ "isOpen" := JsBool true ]} ]};
                            "group" := JsObject {[ "members" := JsArray [plainMember] ]} ]} ]}.

Definition magdaConfig : JsValue :=
  JsObject {[ "aspects" :=
                JsObject {[ "group" := JsObject {[ "members" := JsArray [groupMember; JsObject ∅] ]} ]} ]}.

(** A Magda configuration whose only member is [plainMember]. *)
Definition falseGroupConfig : JsValue :=
  JsObject {[ "aspects" :=
                JsObject {[ "group" := JsObject {[ "members" := JsArray [plainMember] ]} ]} ]}.

(** A configuration whose entries name init files by fragment. *)
Definition fragmentsConfig : JsValue :=
  JsObject {[ "initializationUrls" := JsArray [JsString "terria"; JsString "nsw"] ]}.

(** An init file that only tells stories. *)
Definition storiesOnlyFile : JsValue :=
  JsObject {[ "stories" := JsArray [JsObject {[ "title" := JsString "Tour" ]}] ]}.

Definition initConfig : JsValue :=
  JsObject {[ "initializationUrls" := JsArray [JsString "terria"; JsString "extra.json"] ]}.

Definition initFile : JsValue :=
  JsObject {[ "catalog" := JsArray [JsObject {[ "name" := JsString "Roads" ]}];
              "stories" := JsArray [JsObject {[ "title" := JsString "Tour" ]}] ]}.

(** A mounted search box with a search already scheduled. *)
Definition searchBox (text : string) : SearchBox.Component :=
  {| SearchBox.props :=
       {| SearchBox.searchText := text; SearchBox.debounceDuration := None;
          SearchBox.has_onClear := false |};
     SearchBox.searchWithDebounce :=
       {| SearchBox.wait := SearchBox.DEBOUNCE_INTERVAL; SearchBox.timer := Some 250 |};
     SearchBox.calls := [] |}.

(** A Magda record without a [group] aspect. *)
Definition bareMagdaConfig : JsValue :=
  JsObject {[ "aspects" := JsObject ∅ ]}.

Definition nullMemberConfig : JsValue :=
  JsObject {[ "aspects" :=
                JsObject {[ "group" := JsObject {[ "members" := JsArray [plainMember; JsNull] ]} ]} ]}.

Definition stringMembersConfig : JsValue :=
  JsObject {[ "aspects" :=
                JsObject {[ "group" := JsObject {[ "members" := JsString "m1,m2" ]} ]} ]}.

(** A member whose [terria.definition] names an [id] of its own. *)
Definition overridingMember : JsValue :=
  JsObject {[ "id" := JsString "m2";
              "name" := JsString "Rivers";
              "aspects" :=
                JsObject {[ "terria" :=
                              JsObject {[ "type" := JsString "wms";
                                          "definition" :=
                                            JsObject {[ "id" := JsString "rivers";
                                                        "url" := JsString "http://host/wms" ]} ]} ]} ]}.

Definition badEntryConfig : JsValue :=
  JsObject {[ "initializationUrls" :=
                JsArray [JsString "terria"; JsNumber 5; JsString "more"] ]}.

Definition otherInitFile : JsValue :=
  JsObject {[ "catalog" := JsArray [];
              "stories" := JsArray [JsObject {[ "title" := JsString "Flood" ]}] ]}.

(** A browser in which two init files are awaited. *)
Definition awaitingTwo : @World plainUri :=
  {| terria := new; window_localStorage := Missing;
     pending := [("http://host/app/init/a.json", OnInitLoaded);
                 ("http://host/app/init/b.json", OnInitLoaded)] |}.

Definition namedUndefined : Terria :=
  {| models := ∅; mainViewer := None; appName := Some "undefined";
     userProperties := ∅; stories := JsArray []; catalog_group := [] |}.

Definition unnamedBrowser : @World plainUri :=
  {| terria := new; window_localStorage := Storage ∅; pending := [] |}.

(** A mounted search box that holds [text], nothing scheduled. *)
Definition idleSearchBox (text : string) : SearchBox.Component :=
  {| SearchBox.props :=
       {| SearchBox.searchText := text; SearchBox.debounceDuration := Some 300;
          SearchBox.has_onClear := true |};
     SearchBox.searchWithDebounce :=
       {| SearchBox.wait := SearchBox.DEBOUNCE_INTERVAL; SearchBox.timer := None |};
     SearchBox.calls := [] |}.

Definition keystrokes : list (nat * SearchBox.ChangeEvent) :=
  [(0, {| SearchBox.target_value := "pe" |});
   (120, {| SearchBox.target_value := "per" |});
   (999, {| SearchBox.target_value := "pert" |})].

End Samples.

(** * Properties *)

Import Terria.

(** Unfolds the monad operations so that a computation applied to a state
    reduces. *)
Ltac run_eff :=
  unfold mbind, mret, eff_bind_inst, eff_ret_inst, eff_bind, eff_ret, eval,
         throw, read, modify, try_catch in *;
  simpl in *.

(** ** The model registry *)

Lemma removed_or_key (ref : ModelReference.t) :
  ModelReference.isRemoved ref = false -> exists key, ref = ModelId key.
Proof. destruct ref as [key|]; [eauto | discriminate]. Qed.

Lemma addModel_registered (model : BaseModel) (key : string) (this : Terria) :
  id model = ModelId key ->
  is_Some (models this !! key) ->
  addModel model this
  = (Throw (RuntimeError "A model with the specified ID already exists."), this).
Proof.
  intros Hid Hsome. unfold addModel. rewrite Hid. run_eff.
  by rewrite bool_decide_eq_true_2.
Qed.

Lemma addModel_fresh (model : BaseModel) (key : string) (this : Terria) :
  id model = ModelId key ->
  models this !! key = None ->
  addModel model this = (Normal tt, set_models (insert key model) this).
Proof.
  intros Hid Hnone. unfold addModel. rewrite Hid. run_eff.
  rewrite bool_decide_eq_false_2; [done |].
  rewrite Hnone. by intros [? ?].
Qed.

(** C1.  For a model whose id is not the removed reference: when the model
    map already has an entry for the id, [addModel] throws the
    [RuntimeError] and leaves the instance, hence the model map, as it was;
    when it has none, [addModel] returns and the model map then maps the id
    to the given model. *)
Theorem addModel_throws_or_registers (model : BaseModel) (this : Terria) :
  ModelReference.isRemoved (id model) = false ->
  exists key,
    id model = ModelId key /\
    (is_Some (models this !! key) ->
       exists message,
         addModel model this = (Throw (RuntimeError message), this)) /\
    (models this !! key = None ->
       exists this',
         addModel model this = (Normal tt, this') /\
         models this' !! key = Some model).
Proof.
  intros Hlive. destruct (removed_or_key _ Hlive) as [key Hid].
  exists key. split; [done |]. split.
  - intros Hsome. eexists. by apply (addModel_registered _ key).
  - intros Hnone. eexists. split; [by apply (addModel_fresh _ key) |].
    simpl. apply lookup_insert_eq.
Qed.

Lemma addModel_throws_or_registers_witness :
  ModelReference.isRemoved (id Samples.wmsItem) = false /\
  (exists message,
     addModel Samples.wmsItem Samples.withRoads
     = (Throw (RuntimeError message), Samples.withRoads)) /\
  (exists this',
     addModel Samples.wmsItem new = (Normal tt, this') /\
     models this' !! "roads" = Some Samples.wmsItem).
Proof.
  split; [reflexivity |]. split.
  - destruct (addModel_throws_or_registers Samples.wmsItem Samples.withRoads eq_refl)
      as (key & Hid & Hthrows & _).
    injection Hid as <-. apply Hthrows. vm_compute. eauto.
  - destruct (addModel_throws_or_registers Samples.wmsItem new eq_refl)
      as (key & Hid & _ & Hadds).
    injection Hid as <-. apply Hadds. reflexivity.
Defined.

(** C2.  [getModelById] never throws and leaves the instance alone.  Its
    result is [undefined] for the removed reference; for an id string it is
    the model registered under the id when that model is an instance of the
    requested type, and [undefined] when the id is not registered or the
    registered model is not an instance of the type. *)
Theorem getModelById_result (type : Class) (ref : ModelReference.t) (this : Terria) :
  exists result,
    getModelById type ref this = (Normal result, this) /\
    (ModelReference.isRemoved ref = true -> result = None) /\
    (forall key, ref = ModelId key ->
       (forall model,
          models this !! key = Some model ->
          instanceof (modelClasses model) type = true ->
          result = Some model) /\
       (forall model,
          models this !! key = Some model ->
          instanceof (modelClasses model) type = false ->
          result = None) /\
       (models this !! key = None -> result = None) /\
       (forall model,
          result = Some model ->
          models this !! key = Some model /\
          instanceof (modelClasses model) type = true)).
Proof.
  destruct ref as [key|].
  - unfold getModelById. run_eff.
    destruct (models this !! key) as [found|] eqn:Hfound; simpl.
    + destruct (instanceof (modelClasses found) type) eqn:Hinst;
        eexists; (split; [reflexivity |]); (split; [discriminate |]);
        intros key' [= <-]; rewrite Hfound;
        repeat split; intros; simplify_eq; try done; congruence.
    + eexists. split; [reflexivity |]. split; [discriminate |].
      intros key' [= <-]. rewrite Hfound. repeat split; intros; simplify_eq; done.
  - exists None. repeat split; intros; simplify_eq.
Qed.

Lemma getModelById_result_witness :
  getModelById "WebMapServiceCatalogItem" (ModelId "roads") Samples.withRoads
  = (Normal (Some Samples.wmsItem), Samples.withRoads) /\
  getModelById "GeoJsonCatalogItem" (ModelId "roads") Samples.withRoads
  = (Normal None, Samples.withRoads) /\
  getModelById "BaseModel" RemovedModelId Samples.withRoads
  = (Normal None, Samples.withRoads).
Proof.
  split; [| split].
  - destruct (getModelById_result "WebMapServiceCatalogItem" (ModelId "roads")
                Samples.withRoads) as (result & Hrun & _ & Hkey).
    destruct (Hkey "roads" eq_refl) as (Hsame & _).
    rewrite Hrun. by rewrite (Hsame Samples.wmsItem eq_refl eq_refl).
  - destruct (getModelById_result "GeoJsonCatalogItem" (ModelId "roads")
                Samples.withRoads) as (result & Hrun & _ & Hkey).
    destruct (Hkey "roads" eq_refl) as (_ & Hother & _).
    rewrite Hrun. by rewrite (Hother Samples.wmsItem eq_refl eq_refl).
  - destruct (getModelById_result "BaseModel" RemovedModelId Samples.withRoads)
      as (result & Hrun & Hremoved & _).
    rewrite Hrun. by rewrite (Hremoved eq_refl).
Defined.

(** ** The viewers *)

(** C3.  The [currentViewer] getter always yields a backend: the
    [currentViewer] of [mainViewer] when [mainViewer] is defined and that
    value is truthy, and a fresh [NoViewer] in the other cases. *)
Theorem currentViewer_always_a_backend (this : Terria) :
  exists backend,
    currentViewer this = Some backend /\
    (forall viewer current,
       mainViewer this = Some viewer ->
       TerriaViewer.currentViewer viewer = Some current ->
       backend = current) /\
    (mainViewer this = None \/
     (exists viewer,
        mainViewer this = Some viewer /\ TerriaViewer.currentViewer viewer = None) ->
     backend = new_NoViewer this /\
     instanceof (backendClasses backend) NoViewer = true).
Proof.
  unfold currentViewer.
  destruct (mainViewer this) as [viewer|] eqn:Hmain; simpl.
  - destruct (TerriaViewer.currentViewer viewer) as [current|] eqn:Hcurrent; simpl.
    + exists current. split; [done |]. split.
      * intros viewer' current' [= <-]. congruence.
      * intros [? | (viewer' & [= <-] & ?)]; congruence.
    + exists (new_NoViewer this). split; [done |]. split.
      * intros viewer' current' [= <-]. congruence.
      * done.
  - exists (new_NoViewer this). split; [done |]. split; [discriminate | done].
Qed.

Lemma currentViewer_always_a_backend_witness :
  currentViewer (Samples.withViewer Samples.leafletViewer) = Some Samples.leafletBackend /\
  currentViewer (Samples.withViewer Samples.cesiumViewer)
  = Some (new_NoViewer (Samples.withViewer Samples.cesiumViewer)) /\
  currentViewer new = Some (new_NoViewer new).
Proof.
  split; [| split].
  - destruct (currentViewer_always_a_backend (Samples.withViewer Samples.leafletViewer))
      as (backend & Hget & Hmain & _).
    rewrite Hget. f_equal. exact (Hmain Samples.leafletViewer _ eq_refl eq_refl).
  - destruct (currentViewer_always_a_backend (Samples.withViewer Samples.cesiumViewer))
      as (backend & Hget & _ & Hnone).
    rewrite Hget. f_equal. apply Hnone. right. by exists Samples.cesiumViewer.
  - destruct (currentViewer_always_a_backend new) as (backend & Hget & _ & Hnone).
    rewrite Hget. f_equal. apply Hnone. by left.
Defined.

Lemma viewer_getter (type : Class) (this : Terria) (viewer : TerriaViewer.t) :
  (if isDefined (mainViewer this) && viewerInstanceof (mainViewer this) type
   then mainViewer this else None) = Some viewer
  <-> mainViewer this = Some viewer /\
      instanceof (TerriaViewer.viewerClasses viewer) type = true.
Proof.
  destruct (mainViewer this) as [v|]; simpl; [| split; [done | by intros [? _]]].
  destruct (instanceof (TerriaViewer.viewerClasses v) type) eqn:Hinst.
  - split; [by intros [= <-] | by intros [? _]].
  - split; [done | intros [[= <-] ?]; congruence].
Qed.

Lemma viewer_getter_undefined (type : Class) (this : Terria) :
  (if isDefined (mainViewer this) && viewerInstanceof (mainViewer this) type
   then mainViewer this else None) = None
  <-> ~ exists viewer,
        mainViewer this = Some viewer /\
        instanceof (TerriaViewer.viewerClasses viewer) type = true.
Proof.
  rewrite eq_None_not_Some.
  split; intros Hnot.
  - intros (viewer & Hviewer). apply Hnot. exists viewer. by apply viewer_getter.
  - intros [viewer Hviewer]. apply Hnot. exists viewer. by apply viewer_getter.
Qed.

(** C6.  The [cesium] getter returns [mainViewer] exactly when [mainViewer]
    is defined and an instance of [Cesium], and [undefined] otherwise; the
    [leaflet] getter does the same with [Leaflet]. *)
Theorem cesium_leaflet_getters (this : Terria) :
  (forall viewer,
     cesium this = Some viewer
     <-> mainViewer this = Some viewer /\
         instanceof (TerriaViewer.viewerClasses viewer) Cesium = true) /\
  (cesium this = None
   <-> ~ exists viewer,
         mainViewer this = Some viewer /\
         instanceof (TerriaViewer.viewerClasses viewer) Cesium = true) /\
  (forall viewer,
     leaflet this = Some viewer
     <-> mainViewer this = Some viewer /\
         instanceof (TerriaViewer.viewerClasses viewer) Leaflet = true) /\
  (leaflet this = None
   <-> ~ exists viewer,
         mainViewer this = Some viewer /\
         instanceof (TerriaViewer.viewerClasses viewer) Leaflet = true).
Proof.
  unfold cesium, leaflet.
  split; [intros viewer; apply viewer_getter |].
  split; [apply viewer_getter_undefined |].
  split; [intros viewer; apply viewer_getter |].
  apply viewer_getter_undefined.
Qed.

Lemma cesium_leaflet_getters_witness :
  cesium (Samples.withViewer Samples.cesiumViewer) = Some Samples.cesiumViewer /\
  leaflet (Samples.withViewer Samples.leafletViewer) = Some Samples.leafletViewer /\
  cesium new = None.
Proof.
  split; [| split].
  - destruct (cesium_leaflet_getters (Samples.withViewer Samples.cesiumViewer))
      as (Hcesium & _).
    apply Hcesium. by split.
  - destruct (cesium_leaflet_getters (Samples.withViewer Samples.leafletViewer))
      as (_ & _ & Hleaflet & _).
    apply Hleaflet. by split.
  - destruct (cesium_leaflet_getters new) as (_ & Hnone & _).
    apply Hnone. by intros (viewer & [=] & _).
Defined.

(** ** User properties *)

(** C10.  [getUserProperty] returns [undefined] for every key, whatever the
    [userProperties] map of the instance holds, also when it holds the key. *)
Theorem getUserProperty_undefined (this : Terria) (key : string) :
  getUserProperty this key = JsUndefined /\
  forall value properties,
    getUserProperty
      {| models := models this; mainViewer := mainViewer this; appName := appName this;
         userProperties := <[key := value]> properties; stories := stories this;
         catalog_group := catalog_group this |} key
    = JsUndefined.
Proof. split; reflexivity. Qed.

(** ** Local storage *)

Section BrowserProperties.
Context {uriLib : UriLib}.

Lemma localStorageGuard_available {R} (r : R) (w : World) items :
  window_localStorage w = Storage items ->
  localStorageGuard r w = (Normal None, w).
Proof. intros Hls. unfold localStorageGuard, get_window_localStorage. run_eff. by rewrite Hls. Qed.

Lemma localStorageGuard_unavailable {R} (r : R) (w : World) :
  window_localStorage w = Missing \/ (exists e, window_localStorage w = Blocked e) ->
  localStorageGuard r w = (Normal (Some r), w).
Proof.
  intros [Hls | [e Hls]]; unfold localStorageGuard, get_window_localStorage; run_eff;
    by rewrite Hls.
Qed.

Lemma setLocalProperty_available (key : string) (value : LocalValue) (w : World) items :
  window_localStorage w = Storage items ->
  setLocalProperty key value w
  = (Normal true,
     set_localStorage
       (Storage (<[localKey (terria w) key := LocalValue_toString value]> items)) w).
Proof.
  intros Hls. unfold setLocalProperty.
  unfold mbind at 1, eff_bind_inst, eff_bind.
  rewrite (localStorageGuard_available _ _ _ Hls).
  unfold setItem, get_window_localStorage. run_eff. by rewrite Hls.
Qed.

Lemma getLocalProperty_available (key : string) (w : World) items :
  window_localStorage w = Storage items ->
  getLocalProperty key w
  = (Normal
       (match items !! localKey (terria w) key with
        | Some v =>
            if String.eqb v "true" then JsBool true
            else if String.eqb v "false" then JsBool false
            else JsString v
        | None => JsNull
        end), w).
Proof.
  intros Hls. unfold getLocalProperty.
  unfold mbind at 1, eff_bind_inst, eff_bind.
  rewrite (localStorageGuard_available _ _ _ Hls).
  unfold getItem, get_window_localStorage. run_eff. rewrite Hls. simpl.
  destruct (items !! localKey (terria w) key) as [v|]; simpl; [| done].
  destruct (String.eqb v "true"); [done |]. by destruct (String.eqb v "false").
Qed.

Lemma set_then_get (key : string) (value : LocalValue) (w : World) items :
  window_localStorage w = Storage items ->
  exists w',
    setLocalProperty key value w = (Normal true, w') /\
    getLocalProperty key w'
    = (Normal
         (let v := LocalValue_toString value in
          if String.eqb v "true" then JsBool true
          else if String.eqb v "false" then JsBool false
          else JsString v), w').
Proof.
  intros Hls. eexists. split; [by apply setLocalProperty_available |].
  erewrite getLocalProperty_available; [| reflexivity].
  simpl. by rewrite lookup_insert_eq.
Qed.

(** C8.  With [window.localStorage] available: a boolean that was set is
    read back as the same boolean; a string other than ["true"] and
    ["false"] that was set is read back as that string, and the strings
    ["true"] and ["false"] are read back as the booleans.  With
    [window.localStorage] undefined, or throwing when it is read,
    [setLocalProperty] returns [false] and [getLocalProperty] returns
    [null]. *)
Theorem localProperty_set_then_get (key : string) (w : World) :
  (forall items,
     window_localStorage w = Storage items ->
     (forall b, exists w',
        setLocalProperty key (LocalBool b) w = (Normal true, w') /\
        getLocalProperty key w' = (Normal (JsBool b), w')) /\
     (forall s, s <> "true" -> s <> "false" -> exists w',
        setLocalProperty key (LocalString s) w = (Normal true, w') /\
        getLocalProperty key w' = (Normal (JsString s), w')) /\
     (forall b : bool, exists w',
        setLocalProperty key (LocalString (if b then "true" else "false")) w
        = (Normal true, w') /\
        getLocalProperty key w' = (Normal (JsBool b), w'))) /\
  (window_localStorage w = Missing \/ (exists e, window_localStorage w = Blocked e) ->
   (forall value, setLocalProperty key value w = (Normal false, w)) /\
   getLocalProperty key w = (Normal JsNull, w)).
Proof.
  split.
  - intros items Hls. split; [| split].
    + intros b. destruct (set_then_get key (LocalBool b) w items Hls) as (w' & Hset & Hget).
      exists w'. split; [done |]. rewrite Hget. by destruct b.
    + intros s Htrue Hfalse.
      destruct (set_then_get key (LocalString s) w items Hls) as (w' & Hset & Hget).
      exists w'. split; [done |]. rewrite Hget. simpl.
      apply String.eqb_neq in Htrue, Hfalse. by rewrite Htrue, Hfalse.
    + intros b.
      destruct (set_then_get key (LocalString (if b then "true" else "false")) w items Hls)
        as (w' & Hset & Hget).
      exists w'. split; [done |]. rewrite Hget. by destruct b.
  - intros Hnone. split.
    + intros value. unfold setLocalProperty.
      unfold mbind at 1, eff_bind_inst, eff_bind.
      by rewrite (localStorageGuard_unavailable _ _ Hnone).
    + unfold getLocalProperty.
      unfold mbind at 1, eff_bind_inst, eff_bind.
      by rewrite (localStorageGuard_unavailable _ _ Hnone).
Qed.

(** ** Initialization URLs *)

Lemma toLowerCase_dropChars (n : nat) (s : string) :
  toLowerCase (dropChars n s) = dropChars n (toLowerCase s).
Proof.
  revert s. induction n as [|n IH]; intros [|c rest]; simpl; auto.
Qed.

(** The test of [generateInitializationUrl] reads the suffix of the
    lowercased URL; on these strings that is the lowercased suffix. *)
Lemma lastFiveLowercased_test (url : string) :
  substring (Z.of_nat (String.length url) - 5)%Z (toLowerCase url) = lastFiveLowercased url.
Proof. unfold lastFiveLowercased, substring. by rewrite toLowerCase_dropChars. Qed.

Lemma generateInitializationUrl_fragment (baseUri : URI) (url : string) :
  lastFiveLowercased url <> ".json" ->
  generateInitializationUrl baseUri url = InitFragment baseUri url.
Proof.
  intros Hne. unfold generateInitializationUrl.
  rewrite lastFiveLowercased_test.
  apply String.eqb_neq in Hne. by rewrite Hne.
Qed.

Lemma generateInitializationUrl_json (baseUri : URI) (url : string) :
  lastFiveLowercased url = ".json" ->
  generateInitializationUrl baseUri url
  = InitUrl (URI_toString (URI_absoluteTo (URI_new url) baseUri)).
Proof.
  intros Heq. unfold generateInitializationUrl.
  rewrite lastFiveLowercased_test.
  apply String.eqb_eq in Heq. by rewrite Heq.
Qed.

(** The half of C7 that holds: a URL that does not end in [.json] is loaded
    from ["init/" + url + ".json"] resolved against the base URI. *)
Lemma initUrl_of_fragment (baseUri : URI) (url : string) :
  lastFiveLowercased url <> ".json" ->
  initUrl baseUri url
  = URI_toString (URI_absoluteTo (URI_new ("init/" +:+ url +:+ ".json")) baseUri).
Proof.
  intros Hne. unfold initUrl. by rewrite generateInitializationUrl_fragment.
Qed.

(** C7, the code at a URL that ends in [.json]: [start] hands the string
    that [generateInitializationUrl] returns to [buildInitUrlFromFragment],
    which reads [initFragment] and [baseUri] off it, so that the file loaded
    is ["init/undefined.json"], not resolved against anything, whatever the
    URL was. *)
Theorem initUrl_of_json_url (baseUri : URI) (url : string) :
  lastFiveLowercased url = ".json" ->
  initUrl baseUri url = URI_toString (URI_new "init/undefined.json").
Proof.
  intros Heq. unfold initUrl. by rewrite generateInitializationUrl_json.
Qed.

End BrowserProperties.

Lemma initUrl_of_json_url_witness :
  lastFiveLowercased "http://host/data/extra.JSON" = ".json" /\
  @initUrl Samples.plainUri "http://host/app/" "http://host/data/extra.JSON"
  = "init/undefined.json" /\
  @URI_toString Samples.plainUri
    (@URI_absoluteTo Samples.plainUri
       (@URI_new Samples.plainUri "http://host/data/extra.JSON") "http://host/app/")
  = "http://host/data/extra.JSON".
Proof.
  split; [reflexivity |]. split; [| reflexivity].
  exact (@initUrl_of_json_url Samples.plainUri "http://host/app/"
           "http://host/data/extra.JSON" eq_refl).
Defined.

(** ** Magda configurations *)

Section StartProperties.
Context {uriLib : UriLib}.

Lemma getProp_propOf (v : JsValue) (k : string) :
  isNullish v = false -> getProp v k = Normal (propOf v k).
Proof. by destruct v. Qed.

Lemma truthy_not_nullish (v : JsValue) : truthy v = true -> isNullish v = false.
Proof. by destruct v. Qed.

Lemma propOf_defined_object (v : JsValue) (k : string) :
  propOf v k <> JsUndefined -> isNullish v = false /\ truthy v = true.
Proof. destruct v; simpl; done. Qed.

Lemma magdaMember_node (member : JsValue) :
  isNullish member = false ->
  exists node, magdaMember member = Normal node /\ magdaNode member node.
Proof.
  intros Hmember. unfold magdaMember.
  rewrite (getProp_propOf member "aspects" Hmember). simpl.
  destruct (truthy (propOf member "aspects")) eqn:Haspects; simpl;
    [| exists JsUndefined; split; [done | by apply node_without_aspects]].
  pose proof (truthy_not_nullish _ Haspects) as Haspects'.
  rewrite (getProp_propOf _ "terria" Haspects'). simpl.
  destruct (truthy (propOf (propOf member "aspects") "terria")) eqn:Hterria; simpl;
    [| exists JsUndefined; split; [done | by apply node_without_terria]].
  pose proof (truthy_not_nullish _ Hterria) as Hterria'.
  rewrite (getProp_propOf _ "group" Haspects'). simpl.
  destruct (truthy (propOf (propOf member "aspects") "group")) eqn:Hgroup; simpl.
  - pose proof (truthy_not_nullish _ Hgroup) as Hgroup'.
    rewrite !(getProp_propOf member _ Hmember),
            !(getProp_propOf _ _ Hterria'), (getProp_propOf _ "members" Hgroup').
    simpl. eexists. split; [reflexivity |].
    eapply node_of_group; done.
  - rewrite !(getProp_propOf member _ Hmember), !(getProp_propOf _ _ Hterria').
    simpl. eexists. split; [reflexivity |].
    eapply node_of_item; done.
Qed.

Lemma mapM_magdaMember (members : list JsValue) :
  Forall (fun member => isNullish member = false) members ->
  exists nodes,
    mapM magdaMember members = Normal nodes /\ Forall2 magdaNode members nodes.
Proof.
  induction 1 as [|member rest Hmember _ (nodes & Hrest & Hnodes)]; simpl.
  - exists []. by split.
  - destruct (magdaMember_node member Hmember) as (node & Hrun & Hnode).
    exists (node :: nodes). rewrite Hrun. simpl. rewrite Hrest. simpl.
    split; [done | by constructor].
Qed.

(** C5, amended.  When [aspects.group.members] of the configuration is an
    array of values other than [null] and [undefined], [loadMagdaConfig]
    merges, at the definition stratum, the members mapped one by one:
    to [undefined] when the member's [aspects] or [aspects.terria] is
    falsy; to the ["magda-group"] node when its [aspects.group] is truthy;
    to the node with the member's id and name, the terria type and the
    spread [terria.definition] otherwise. *)
Theorem loadMagdaConfig_maps_members (config : JsValue) (members : list JsValue)
    (w : World) :
  propOf (propOf (propOf config "aspects") "group") "members" = JsArray members ->
  Forall (fun member => isNullish member = false) members ->
  exists nodes,
    Forall2 magdaNode members nodes /\
    loadMagdaConfig config w
    = (Normal tt,
       set_terria
         (set_catalog_group
            (fun g => g ++ [(definition, JsObject {[ "members" := JsArray nodes ]})]))
         w).
Proof.
  intros Hmembers Hlive.
  destruct (mapM_magdaMember members Hlive) as (nodes & Hrun & Hnodes).
  exists nodes. split; [done |].
  assert (propOf (propOf (propOf config "aspects") "group") "members" <> JsUndefined)
    as Hgroup by (by rewrite Hmembers).
  apply propOf_defined_object in Hgroup as [Hgroup Hgroup_truthy].
  assert (propOf (propOf config "aspects") "group" <> JsUndefined)
    as Haspects by (by destruct (propOf (propOf config "aspects") "group")).
  apply propOf_defined_object in Haspects as [Haspects _].
  assert (propOf config "aspects" <> JsUndefined)
    as Hconfig by (by destruct (propOf config "aspects")).
  apply propOf_defined_object in Hconfig as [Hconfig _].
  unfold loadMagdaConfig, updateModelFromJson_catalog_group. run_eff.
  rewrite (getProp_propOf config _ Hconfig), (getProp_propOf _ "group" Haspects),
          Hgroup_truthy, (getProp_propOf _ "members" Hgroup), Hmembers.
  simpl. by rewrite Hrun.
Qed.

(** ** Start-up *)

Lemma set_pending_id (w : World) : set_pending (fun reqs => reqs ++ []) w = w.
Proof. destruct w. unfold set_pending. simpl. by rewrite app_nil_r. Qed.

Lemma forEach_loads (baseUri : URI) (urls : list string) (w : World) :
  forEach
    (fun initializationUrl =>
       match initializationUrl with
       | JsString url => loadJson5_then (initUrl baseUri url) OnInitLoaded
       | _ => throw TypeError
       end) (JsString <$> urls) w
  = (Normal tt,
     set_pending
       (fun reqs => reqs ++ ((fun url => (initUrl baseUri url, OnInitLoaded)) <$> urls)) w).
Proof.
  revert w. induction urls as [|url urls IH]; intros w; simpl.
  - by rewrite set_pending_id.
  - unfold loadJson5_then. run_eff. rewrite IH.
    destruct w. unfold set_pending. simpl. by rewrite <- app_assoc.
Qed.

Lemma onConfigLoaded_magda (baseUri : URI) (config aspects : JsValue) (w : World) :
  getProp config "aspects" = Normal aspects ->
  truthy aspects = true ->
  onConfigLoaded baseUri config w = loadMagdaConfig config w.
Proof. intros Haspects Htruthy. unfold onConfigLoaded. run_eff. by rewrite Haspects, Htruthy. Qed.

Lemma onConfigLoaded_init (baseUri : URI) (config aspects : JsValue)
    (urls : list string) (w : World) :
  getProp config "aspects" = Normal aspects ->
  truthy aspects = false ->
  getProp config "initializationUrls" = Normal (JsArray (JsString <$> urls)) ->
  onConfigLoaded baseUri config w
  = (Normal tt,
     set_pending
       (fun reqs => reqs ++ ((fun url => (initUrl baseUri url, OnInitLoaded)) <$> urls)) w).
Proof.
  intros Haspects Hfalsy Hurls. unfold onConfigLoaded.
  unfold mbind at 1, eff_bind_inst, eff_bind, eval. rewrite Haspects, Hfalsy.
  rewrite Hurls. apply forEach_loads.
Qed.

Lemma onInitLoaded_merges (initData catalog init_stories : JsValue) (w : World) :
  getProp initData "catalog" = Normal catalog ->
  getProp initData "stories" = Normal init_stories ->
  onInitLoaded initData w = (Normal tt, set_terria (afterInit catalog init_stories) w).
Proof.
  intros Hcatalog Hstories. unfold onInitLoaded, updateModelFromJson_catalog_group.
  run_eff. rewrite Hcatalog. simpl.
  destruct w as [this ls reqs]. destruct this. unfold afterInit, set_terria. simpl.
  destruct (notUndefined catalog); simpl; rewrite Hstories;
    by destruct (notUndefined init_stories).
Qed.

Lemma resolve_last (url : string) (callback : Callback) (response : JsValue) (w : World) :
  resolve (length (pending w)) response
    (set_pending (fun reqs => reqs ++ [(url, callback)]) w)
  = Some (runCallback callback response w).
Proof.
  unfold resolve. simpl.
  rewrite list_lookup_middle by done.
  do 2 f_equal. destruct w as [this ls reqs]. unfold set_pending. simpl.
  f_equal. by rewrite delete_middle, app_nil_r.
Qed.

(** C4, amended.  [start] requests the configuration at [configUrl] and
    changes nothing else.  When the configuration arrives: if its [aspects]
    is truthy it is handed to [loadMagdaConfig]; if [aspects] is falsy and
    [initializationUrls] is an array of strings, one init file is requested
    per entry, in order, and for an entry that does not end in [.json] it is
    the referenced one, ["init/" + entry + ".json"] against the base URI of
    the configuration.  When an init file arrives, in whatever order, its
    [catalog], when defined, is merged as [members] into the catalog group
    at the definition stratum, and its [stories], when defined, replace the
    stories of the instance. *)
Theorem start_loads_config_then_init_files (options : StartOptions) (w : World) :
  let baseUri := URI_filename "" (URI_new (configUrl options)) in
  let requested :=
    set_pending (fun reqs => reqs ++ [(configUrl options, OnConfigLoaded baseUri)]) w in
  start options w = (Normal tt, requested) /\
  (forall config aspects,
     getProp config "aspects" = Normal aspects ->
     truthy aspects = true ->
     resolve (length (pending w)) config requested = Some (loadMagdaConfig config w)) /\
  (forall config aspects entries,
     getProp config "aspects" = Normal aspects ->
     truthy aspects = false ->
     getProp config "initializationUrls" = Normal (JsArray (JsString <$> entries)) ->
     exists requests,
       resolve (length (pending w)) config requested
       = Some (Normal tt, set_pending (fun reqs => reqs ++ requests) w) /\
       Forall2 (initRequestFor baseUri) entries requests) /\
  (forall (w' : World) i url initData catalog init_stories,
     pending w' !! i = Some (url, OnInitLoaded) ->
     getProp initData "catalog" = Normal catalog ->
     getProp initData "stories" = Normal init_stories ->
     resolve i initData w'
     = Some (Normal tt,
             set_terria (afterInit catalog init_stories) (set_pending (delete i) w'))).
Proof.
  intros baseUri requested. split; [reflexivity |]. split; [| split].
  - intros config aspects Haspects Htruthy. unfold requested.
    rewrite resolve_last. simpl. f_equal. by eapply onConfigLoaded_magda.
  - intros config aspects entries Haspects Hfalsy Hentries.
    exists ((fun entry => (initUrl baseUri entry, OnInitLoaded)) <$> entries). split.
    + unfold requested. rewrite resolve_last. simpl. f_equal.
      by eapply onConfigLoaded_init.
    + apply Forall2_fmap_r, Forall_Forall2_diag, Forall_forall.
      intros entry _. split; [done |]. intros Hfragment. simpl.
      unfold initUrl. by rewrite generateInitializationUrl_fragment.
  - intros w' i url initData catalog init_stories Hreq Hcatalog Hstories.
    unfold resolve. rewrite Hreq. simpl. f_equal. by apply onInitLoaded_merges.
Qed.

End StartProperties.

(** ** The properties at the sample data *)

Lemma localProperty_set_then_get_witness :
  (exists w',
     @setLocalProperty Samples.plainUri "viewermode" (LocalBool true)
       (Samples.browser (Storage ∅)) = (Normal true, w') /\
     getLocalProperty "viewermode" w' = (Normal (JsBool true), w')) /\
  (exists w',
     @setLocalProperty Samples.plainUri "basemap" (LocalString "Bing Maps")
       (Samples.browser (Storage ∅)) = (Normal true, w') /\
     getLocalProperty "basemap" w' = (Normal (JsString "Bing Maps"), w')) /\
  @setLocalProperty Samples.plainUri "basemap" (LocalString "Bing Maps")
    (Samples.browser (Blocked SecurityError))
  = (Normal false, Samples.browser (Blocked SecurityError)) /\
  @getLocalProperty Samples.plainUri "basemap" (Samples.browser Missing)
  = (Normal JsNull, Samples.browser Missing).
Proof.
  split; [| split; [| split]].
  - destruct (@localProperty_set_then_get Samples.plainUri "viewermode"
                (Samples.browser (Storage ∅))) as (Havailable & _).
    destruct (Havailable ∅ eq_refl) as (Hbool & _). apply Hbool.
  - destruct (@localProperty_set_then_get Samples.plainUri "basemap"
                (Samples.browser (Storage ∅))) as (Havailable & _).
    destruct (Havailable ∅ eq_refl) as (_ & Hstring & _).
    apply Hstring; discriminate.
  - destruct (@localProperty_set_then_get Samples.plainUri "basemap"
                (Samples.browser (Blocked SecurityError))) as (_ & Hunavailable).
    apply Hunavailable. right. by eexists.
  - destruct (@localProperty_set_then_get Samples.plainUri "basemap"
                (Samples.browser Missing)) as (_ & Hunavailable).
    apply Hunavailable. by left.
Defined.

Lemma loadMagdaConfig_maps_members_witness :
  propOf (propOf (propOf Samples.magdaConfig "aspects") "group") "members"
  = JsArray [Samples.groupMember; JsObject ∅] /\
  Forall (fun member => isNullish member = false) [Samples.groupMember; JsObject ∅] /\
  exists nodes,
    Forall2 magdaNode [Samples.groupMember; JsObject ∅] nodes /\
    @loadMagdaConfig Samples.plainUri Samples.magdaConfig (Samples.browser Missing)
    = (Normal tt,
       set_terria
         (set_catalog_group
            (fun g => g ++ [(definition, JsObject {[ "members" := JsArray nodes ]})]))
         (Samples.browser Missing)).
Proof.
  assert (Forall (fun member => isNullish member = false)
            [Samples.groupMember; JsObject ∅]) as Hlive
    by (repeat constructor).
  split; [reflexivity |]. split; [exact Hlive |].
  exact (@loadMagdaConfig_maps_members Samples.plainUri Samples.magdaConfig
           [Samples.groupMember; JsObject ∅] (Samples.browser Missing) eq_refl Hlive).
Defined.

(** C5 as it is worded fails on a member whose [aspects.group] is present
    and falsy: the member has [aspects.terria] and [aspects.group], and the
    node merged for it has the terria type, not ["magda-group"], and no
    [groupId]. *)
Lemma loadMagdaConfig_present_falsy_group :
  let aspects := propOf Samples.plainMember "aspects" in
  hasProp aspects "terria" = true /\
  hasProp aspects "group" = true /\
  propOf (propOf (propOf Samples.falseGroupConfig "aspects") "group") "members"
  = JsArray [Samples.plainMember] /\
  exists node,
    @loadMagdaConfig Samples.plainUri Samples.falseGroupConfig (Samples.browser Missing)
    = (Normal tt,
       set_terria
         (set_catalog_group
            (fun g => g ++ [(definition, JsObject {[ "members" := JsArray [JsObject node] ]})]))
         (Samples.browser Missing)) /\
    node !! "type" = Some (JsString "wms") /\
    node !! "type" <> Some (JsString "magda-group") /\
    node !! "groupId" = None.
Proof.
  split; [reflexivity |]. split; [reflexivity |]. split; [reflexivity |].
  eexists. split; [vm_compute; reflexivity |].
  split; [reflexivity |]. split; [discriminate | reflexivity].
Qed.

Lemma start_loads_config_then_init_files_witness :
  let options := {| configUrl := "http://host/app/config.json" |} in
  let w := Samples.browser Missing in
  let requested :=
    set_pending
      (fun reqs =>
         reqs ++ [("http://host/app/config.json",
                   @OnConfigLoaded Samples.plainUri "http://host/app/")])
      w in
  let awaited :=
    set_pending
      (fun reqs =>
         reqs ++ [("http://host/app/init/terria.json", OnInitLoaded);
                  ("http://host/app/init/nsw.json", OnInitLoaded)]) w in
  @start Samples.plainUri options w = (Normal tt, requested) /\
  resolve 0 Samples.magdaConfig requested = Some (loadMagdaConfig Samples.magdaConfig w) /\
  resolve 0 Samples.fragmentsConfig requested = Some (Normal tt, awaited) /\
  resolve 1 Samples.initFile awaited
  = Some (Normal tt,
          set_terria
            (afterInit (propOf Samples.initFile "catalog") (propOf Samples.initFile "stories"))
            (set_pending (fun _ => [("http://host/app/init/terria.json", OnInitLoaded)]) w)).
Proof.
  intros options w requested awaited.
  destruct (@start_loads_config_then_init_files Samples.plainUri options w)
    as (Hstart & Hmagda & Hinit & Hfile).
  split; [exact Hstart |]. split; [| split].
  - exact (Hmagda Samples.magdaConfig _ eq_refl eq_refl).
  - destruct (Hinit Samples.fragmentsConfig JsUndefined ["terria"; "nsw"]
                eq_refl eq_refl eq_refl) as (requests & Hrun & Hrequests).
    apply Forall2_cons_inv_l in Hrequests
      as ([url1 callback1] & rest1 & (Hcallback1 & Hurl1) & Hrequests & ->).
    apply Forall2_cons_inv_l in Hrequests
      as ([url2 callback2] & rest2 & (Hcallback2 & Hurl2) & Hrequests & ->).
    apply Forall2_nil_inv_l in Hrequests as ->.
    simpl in Hcallback1, Hcallback2, Hurl1, Hurl2.
    rewrite Hcallback1, Hcallback2, (Hurl1 ltac:(discriminate)),
            (Hurl2 ltac:(discriminate)) in Hrun.
    exact Hrun.
  - exact (Hfile awaited 1 "http://host/app/init/nsw.json" Samples.initFile _ _
             eq_refl eq_refl eq_refl).
Defined.

(** C4 as it is worded fails on a configuration whose [aspects] is present
    and falsy: it is not handed to [loadMagdaConfig], which would request
    nothing; its [initializationUrls] are requested. *)
Lemma start_present_falsy_aspects :
  let w := Samples.browser Missing in
  let requested :=
    snd (@start Samples.plainUri {| configUrl := "http://host/app/config.json" |} w) in
  hasProp Samples.plainConfig "aspects" = true /\
  resolve 0 Samples.plainConfig requested
  = Some (Normal tt,
          set_pending (fun _ => [("http://host/app/init/terria.json", OnInitLoaded)]) w) /\
  loadMagdaConfig Samples.plainConfig w = (Normal tt, w) /\
  resolve 0 Samples.plainConfig requested <> Some (loadMagdaConfig Samples.plainConfig w).
Proof.
  split; [reflexivity |]. split; [reflexivity |]. split; [reflexivity |].
  discriminate.
Qed.

(** ** The search box *)

Module SearchBoxProperties.
Import SearchBox.

Lemma length_zero_empty (s : string) : (String.length s =? 0) = true <-> s = "".
Proof. destruct s; simpl; split; done. Qed.

(** C9.  [handleChange] calls [onSearchTextChanged] with the new value of
    the event.  When the [searchText] prop is the empty string it then
    searches at once: the scheduled call of the debounced wrapper, if any,
    is cancelled and [onDoSearch] is called.  Otherwise it calls the
    debounced wrapper, which schedules the search, and [onDoSearch] is not
    called. *)
Theorem handleChange_calls (event : ChangeEvent) (c : Component) :
  (searchText (props c) = "" ->
   handleChange event c
   = (Normal tt,
      {| props := props c;
         searchWithDebounce := {| wait := wait (searchWithDebounce c); timer := None |};
         calls := calls c ++ [onSearchTextChanged (target_value event); onDoSearch] |})) /\
  (searchText (props c) <> "" ->
   handleChange event c
   = (Normal tt,
      {| props := props c;
         searchWithDebounce :=
           {| wait := wait (searchWithDebounce c);
              timer := Some (wait (searchWithDebounce c)) |};
         calls := calls c ++ [onSearchTextChanged (target_value event)] |})).
Proof.
  unfold handleChange, search, removeDebounce, call_searchWithDebounce, call.
  run_eff. split; intros Htext.
  - rewrite Htext. simpl. by rewrite <- app_assoc.
  - destruct (String.length (searchText (props c)) =? 0) eqn:Hlen; [| done].
    by apply length_zero_empty in Hlen.
Qed.

Lemma handleChange_calls_witness :
  handleChange {| target_value := "p" |} (Samples.searchBox "")
  = (Normal tt,
     {| props := props (Samples.searchBox "");
        searchWithDebounce := {| wait := 1000; timer := None |};
        calls := [onSearchTextChanged "p"; onDoSearch] |}) /\
  handleChange {| target_value := "pe" |} (Samples.searchBox "p")
  = (Normal tt,
     {| props := props (Samples.searchBox "p");
        searchWithDebounce := {| wait := 1000; timer := Some 1000 |};
        calls := [onSearchTextChanged "pe"] |}).
Proof.
  split.
  - destruct (handleChange_calls {| target_value := "p" |} (Samples.searchBox ""))
      as (Hempty & _).
    exact (Hempty eq_refl).
  - destruct (handleChange_calls {| target_value := "pe" |} (Samples.searchBox "p"))
      as (_ & Hnonempty).
    apply Hnonempty. discriminate.
Defined.

End SearchBoxProperties.

(** * Further properties of the code *)

(** ** The model registry, continued *)

(** X1.  [addModel] never overwrites and never removes: whatever its
    outcome, every id that was registered still maps to the same model, and
    the other fields of the instance are as before.  For a model whose id is
    the removed reference it returns without any change. *)
Theorem addModel_keeps_registered (model : BaseModel) (this : Terria) :
  exists outcome this',
    addModel model this = (outcome, this') /\
    (forall key found,
       models this !! key = Some found -> models this' !! key = Some found) /\
    mainViewer this' = mainViewer this /\
    appName this' = appName this /\
    userProperties this' = userProperties this /\
    stories this' = stories this /\
    catalog_group this' = catalog_group this /\
    (ModelReference.isRemoved (id model) = true ->
     outcome = Normal tt /\ this' = this).
Proof.
  unfold addModel. destruct (id model) as [key|] eqn:Hid; run_eff.
  - destruct (models this !! key) as [old|] eqn:Hold.
    + rewrite bool_decide_eq_true_2 by eauto.
      do 2 eexists. split; [reflexivity |]. repeat split; try done.
    + rewrite bool_decide_eq_false_2 by (by intros [? ?]).
      do 2 eexists. split; [reflexivity |]. repeat split; try done.
      intros key' found Hfound. simpl.
      rewrite lookup_insert_ne; [done | congruence].
  - do 2 eexists. split; [reflexivity |]. repeat split; done.
Qed.

Lemma addModel_keeps_registered_witness :
  exists this',
    addModel {| id := ModelId "rivers"; modelClasses := ["BaseModel"] |} Samples.withRoads
    = (Normal tt, this') /\
    models this' !! "roads" = Some Samples.wmsItem.
Proof.
  destruct (addModel_keeps_registered
              {| id := ModelId "rivers"; modelClasses := ["BaseModel"] |} Samples.withRoads)
    as (outcome & this' & Hrun & Hkept & _).
  exists this'. split; [| by apply Hkept].
  rewrite Hrun. f_equal.
  assert (fst (addModel {| id := ModelId "rivers"; modelClasses := ["BaseModel"] |}
                 Samples.withRoads) = Normal tt) as Hfst by reflexivity.
  by rewrite Hrun in Hfst.
Defined.

(** X2.  A model that [addModel] has registered is what [getModelById]
    returns for its id and every type the model is an instance of, and
    [getModelById] returns [undefined] for the other types. *)
Theorem addModel_then_getModelById (model : BaseModel) (key : string) (type : Class)
    (this this' : Terria) :
  id model = ModelId key ->
  addModel model this = (Normal tt, this') ->
  getModelById type (ModelId key) this'
  = (Normal (if instanceof (modelClasses model) type then Some model else None), this').
Proof.
  intros Hid Hrun. unfold addModel in Hrun. rewrite Hid in Hrun. run_eff.
  destruct (bool_decide (is_Some (models this !! key))); [done |].
  injection Hrun as <-. unfold getModelById. run_eff.
  rewrite lookup_insert_eq. simpl.
  by destruct (instanceof (modelClasses model) type).
Qed.

Lemma addModel_then_getModelById_witness :
  id Samples.wmsItem = ModelId "roads" /\
  addModel Samples.wmsItem new = (Normal tt, Samples.withRoads) /\
  getModelById "BaseModel" (ModelId "roads") Samples.withRoads
  = (Normal (Some Samples.wmsItem), Samples.withRoads).
Proof.
  split; [reflexivity |]. split; [reflexivity |].
  exact (addModel_then_getModelById Samples.wmsItem "roads" "BaseModel" new
           Samples.withRoads eq_refl eq_refl).
Defined.

(** X3.  Ids are unique and the first registration wins: once [addModel]
    has registered a model, [addModel] of any model with the same id throws
    the [RuntimeError] and the first model stays registered. *)
Theorem addModel_second_rejected (model other : BaseModel) (key : string)
    (this this' : Terria) :
  id model = ModelId key ->
  id other = ModelId key ->
  addModel model this = (Normal tt, this') ->
  addModel other this'
  = (Throw (RuntimeError "A model with the specified ID already exists."), this') /\
  models this' !! key = Some model.
Proof.
  intros Hid Hother Hrun. unfold addModel in Hrun. rewrite Hid in Hrun. run_eff.
  destruct (bool_decide (is_Some (models this !! key))); [done |].
  injection Hrun as <-. unfold addModel. rewrite Hother. run_eff.
  rewrite lookup_insert_eq. by rewrite bool_decide_eq_true_2 by eauto.
Qed.

Lemma addModel_second_rejected_witness :
  id Samples.wmsItem = ModelId "roads" /\
  addModel Samples.wmsItem new = (Normal tt, Samples.withRoads) /\
  addModel {| id := ModelId "roads"; modelClasses := ["GeoJsonCatalogItem"] |}
    Samples.withRoads
  = (Throw (RuntimeError "A model with the specified ID already exists."),
     Samples.withRoads) /\
  models Samples.withRoads !! "roads" = Some Samples.wmsItem.
Proof.
  split; [reflexivity |]. split; [reflexivity |].
  exact (addModel_second_rejected Samples.wmsItem
           {| id := ModelId "roads"; modelClasses := ["GeoJsonCatalogItem"] |}
           "roads" new Samples.withRoads eq_refl eq_refl eq_refl).
Defined.

(** ** Local storage, continued *)

Lemma append_cancel_prefix (p a b : string) : p +:+ a = p +:+ b -> a = b.
Proof. induction p as [|c p IH]; simpl; [done |]. intros [= H]. auto. Qed.

Lemma localKey_inj (this : Terria) (key key' : string) :
  localKey this key = localKey this key' -> key = key'.
Proof.
  unfold localKey. intros H.
  apply append_cancel_prefix in H. by apply append_cancel_prefix in H.
Qed.

Section LocalStorageProperties.
Context {uriLib : UriLib}.

Lemma getLocalProperty_unavailable (key : string) (w : World) :
  window_localStorage w = Missing \/ (exists e, window_localStorage w = Blocked e) ->
  getLocalProperty key w = (Normal JsNull, w).
Proof.
  intros Hnone. unfold getLocalProperty.
  unfold mbind at 1, eff_bind_inst, eff_bind.
  by rewrite (localStorageGuard_unavailable _ _ Hnone).
Qed.

Lemma setLocalProperty_unavailable (key : string) (value : LocalValue) (w : World) :
  window_localStorage w = Missing \/ (exists e, window_localStorage w = Blocked e) ->
  setLocalProperty key value w = (Normal false, w).
Proof.
  intros Hnone. unfold setLocalProperty.
  unfold mbind at 1, eff_bind_inst, eff_bind.
  by rewrite (localStorageGuard_unavailable _ _ Hnone).
Qed.

Lemma getLocalProperty_stored (key : string) (w : World) items :
  window_localStorage w = Storage items ->
  getLocalProperty key w
  = (Normal (from_option readBack JsNull (items !! localKey (terria w) key)), w).
Proof.
  intros Hls. rewrite (getLocalProperty_available key w items Hls).
  by destruct (items !! localKey (terria w) key).
Qed.

Lemma localStorage_cases (w : World) :
  (exists items, window_localStorage w = Storage items) \/
  (window_localStorage w = Missing \/ (exists e, window_localStorage w = Blocked e)).
Proof. destruct (window_localStorage w); eauto. Qed.

Lemma readBack_not_null (v : string) : readBack v <> JsNull.
Proof. unfold readBack. by repeat case_match. Qed.

(** X4.  [getLocalProperty] never throws and changes nothing, whatever
    [window.localStorage] is.  A [setLocalProperty] that returns has changed
    nothing but the local storage, nothing at all when it returned [false],
    and it returned [true] exactly when the local storage is available. *)
Theorem localProperty_effects (key : string) (value : LocalValue) (w : World) :
  (exists result, getLocalProperty key w = (Normal result, w)) /\
  (forall stored w',
     setLocalProperty key value w = (Normal stored, w') ->
     terria w' = terria w /\
     pending w' = pending w /\
     (stored = false -> w' = w) /\
     (stored = true <-> exists items, window_localStorage w = Storage items)).
Proof.
  destruct (localStorage_cases w) as [[items Hls] | Hnone].
  - split; [eexists; by apply getLocalProperty_stored |].
    intros stored w'. rewrite (setLocalProperty_available key value w items Hls).
    intros [= <- <-]. repeat split; try done. eauto.
  - split; [eexists; by apply getLocalProperty_unavailable |].
    intros stored w'. rewrite (setLocalProperty_unavailable key value w Hnone).
    intros [= <- <-]. repeat split; try done.
    intros [items Hls]. destruct Hnone as [Hnone | [e Hnone]]; congruence.
Qed.

(** X5.  [getLocalProperty] returns [null] exactly when the local storage is
    unavailable or holds no item under the key of the instance. *)
Theorem getLocalProperty_null_iff (key : string) (w : World) :
  fst (getLocalProperty key w) = Normal JsNull
  <-> (window_localStorage w = Missing \/
       (exists e, window_localStorage w = Blocked e) \/
       (exists items,
          window_localStorage w = Storage items /\
          items !! localKey (terria w) key = None)).
Proof.
  destruct (localStorage_cases w) as [[items Hls] | Hnone].
  - rewrite (getLocalProperty_stored key w items Hls). simpl. split.
    + intros Hnull. right. right. exists items. split; [done |].
      destruct (items !! localKey (terria w) key) as [v|]; [| done].
      simpl in Hnull. injection Hnull as Hnull. by apply readBack_not_null in Hnull.
    + intros [? | [[e ?] | (items' & Hls' & Hnone)]]; try congruence.
      assert (items' = items) as -> by congruence. by rewrite Hnone.
  - rewrite (getLocalProperty_unavailable key w Hnone). simpl.
    split; [| done]. intros _. destruct Hnone as [? | ?]; eauto.
Qed.

(** X6.  Setting a property under one key does not change what
    [getLocalProperty] returns for another key. *)
Theorem setLocalProperty_other_key (key key' : string) (value : LocalValue)
    (w w' : World) (stored : bool) :
  key <> key' ->
  setLocalProperty key value w = (Normal stored, w') ->
  fst (getLocalProperty key' w') = fst (getLocalProperty key' w).
Proof.
  intros Hne Hset.
  destruct (localStorage_cases w) as [[items Hls] | Hnone].
  - rewrite (setLocalProperty_available key value w items Hls) in Hset.
    injection Hset as _ <-.
    erewrite (getLocalProperty_stored key' (set_localStorage _ w)) by reflexivity.
    rewrite (getLocalProperty_stored key' w items Hls). simpl.
    rewrite lookup_insert_ne; [done |].
    intros Heq. by apply localKey_inj in Heq.
  - rewrite (setLocalProperty_unavailable key value w Hnone) in Hset.
    by injection Hset as _ <-.
Qed.

(** X7.  The last value set under a key is the one read: a second
    [setLocalProperty] replaces what the first one stored. *)
Theorem setLocalProperty_overwrites (key : string) (first second : LocalValue)
    (w : World) items :
  window_localStorage w = Storage items ->
  exists w1 w2,
    setLocalProperty key first w = (Normal true, w1) /\
    setLocalProperty key second w1 = (Normal true, w2) /\
    getLocalProperty key w2 = (Normal (readBack (LocalValue_toString second)), w2).
Proof.
  intros Hls. do 2 eexists.
  split; [by apply setLocalProperty_available |].
  split; [by eapply setLocalProperty_available |].
  erewrite getLocalProperty_stored by reflexivity.
  simpl. by rewrite lookup_insert_eq.
Qed.

(** X8.  An instance without [appName] stores its properties under the
    prefix ["undefined."]: what it sets is read by an instance named
    ["undefined"] that shares the local storage. *)
Theorem unnamed_instance_shares_keys (key : string) (value : LocalValue)
    (w w' : World) (named : Terria) :
  appName (terria w) = None ->
  appName named = Some "undefined" ->
  setLocalProperty key value w = (Normal true, w') ->
  fst (getLocalProperty key (set_terria (fun _ => named) w'))
  = Normal (readBack (LocalValue_toString value)).
Proof.
  intros Hnone Hnamed Hset.
  destruct (localStorage_cases w) as [[items Hls] | Hunavailable].
  - rewrite (setLocalProperty_available key value w items Hls) in Hset.
    injection Hset as <-.
    erewrite getLocalProperty_stored by reflexivity. simpl.
    unfold localKey. rewrite Hnone, Hnamed. simpl.
    by rewrite lookup_insert_eq.
  - by rewrite (setLocalProperty_unavailable key value w Hunavailable) in Hset.
Qed.

End LocalStorageProperties.

(** ** Initialization URLs, continued *)

Lemma length_toLowerCase (s : string) : String.length (toLowerCase s) = String.length s.
Proof. induction s as [|c s IH]; simpl; [done | by rewrite IH]. Qed.

Lemma length_dropChars (n : nat) (s : string) :
  String.length (dropChars n s) = (String.length s - n)%nat.
Proof. revert s. induction n as [|n IH]; intros [|c s]; simpl; auto. Qed.

Lemma dropChars_append (p s : string) : dropChars (String.length p) (p +:+ s) = s.
Proof. induction p as [|c p IH]; simpl; [by destruct s | done]. Qed.

Lemma dropChars_suffix (n : nat) (s : string) : exists p, s = p +:+ dropChars n s.
Proof.
  revert s. induction n as [|n IH]; intros s.
  - exists "". by destruct s.
  - destruct s as [|c s]; [by exists "" |].
    destruct (IH s) as [p Hp]. exists (String c p).
    change (String c s = String c (p +:+ dropChars n s)). by f_equal.
Qed.

Lemma length_append (a b : string) :
  String.length (a +:+ b) = (String.length a + String.length b)%nat.
Proof. induction a as [|c a IH]; simpl; [done | by rewrite IH]. Qed.

Lemma lastFiveLowercased_suffix (url : string) :
  lastFiveLowercased url = ".json"
  <-> exists prefix suffix, url = prefix +:+ suffix /\ toLowerCase suffix = ".json".
Proof.
  unfold lastFiveLowercased, substring. split.
  - intros Heq.
    destruct (dropChars_suffix (Z.to_nat (0 `max` (Z.of_nat (String.length url) - 5))) url)
      as [prefix Hprefix].
    eauto.
  - intros (prefix & suffix & -> & Hjson).
    assert (String.length suffix = 5%nat) as Hlen
      by (by rewrite <- length_toLowerCase, Hjson).
    rewrite length_append, Hlen.
    replace (Z.to_nat (0 `max` (Z.of_nat (String.length prefix + 5) - 5)))
      with (String.length prefix) by lia.
    by rewrite dropChars_append.
Qed.

Section InitUrlProperties.
Context {uriLib : UriLib}.

(** X10.  [generateInitializationUrl] returns a string only for a URL
    that ends in five characters which lowercase to [.json], and the string
    is then the URL resolved against the base URI; a URL that does not end
    so becomes the fragment object that carries the URL unchanged. *)
Theorem generateInitializationUrl_string_only_for_json (baseUri : URI) (url : string) :
  (~ (exists prefix suffix, url = prefix +:+ suffix /\ toLowerCase suffix = ".json") ->
   generateInitializationUrl baseUri url = InitFragment baseUri url) /\
  (forall resolved,
     generateInitializationUrl baseUri url = InitUrl resolved ->
     (exists prefix suffix, url = prefix +:+ suffix /\ toLowerCase suffix = ".json") /\
     resolved = URI_toString (URI_absoluteTo (URI_new url) baseUri)).
Proof.
  split.
  - intros Hsuffix. apply generateInitializationUrl_fragment.
    by rewrite lastFiveLowercased_suffix.
  - intros resolved Hstring.
    destruct (decide (lastFiveLowercased url = ".json")) as [Hjson | Hfragment].
    + rewrite (generateInitializationUrl_json baseUri url Hjson) in Hstring.
      injection Hstring as <-. split; [by apply lastFiveLowercased_suffix | done].
    + by rewrite (generateInitializationUrl_fragment baseUri url Hfragment) in Hstring.
Qed.

(** X11.  A URL of fewer than five characters is never taken for a [.json]
    URL, the negative start of [substring] counting as 0: its init file is
    ["init/" + url + ".json"] resolved against the base URI. *)
Theorem initUrl_of_short_url (baseUri : URI) (url : string) :
  (String.length url < 5)%nat ->
  initUrl baseUri url
  = URI_toString (URI_absoluteTo (URI_new ("init/" +:+ url +:+ ".json")) baseUri).
Proof.
  intros Hshort. unfold initUrl.
  rewrite generateInitializationUrl_fragment; [done |].
  intros Heq. apply (f_equal String.length) in Heq.
  unfold lastFiveLowercased, substring in Heq.
  rewrite length_toLowerCase, length_dropChars in Heq. simpl in Heq. lia.
Qed.

End InitUrlProperties.

Lemma initUrl_of_fragment_witness :
  lastFiveLowercased "terria" <> ".json" /\
  @initUrl Samples.plainUri "http://host/app/" "terria" = "http://host/app/init/terria.json".
Proof.
  split; [discriminate |].
  exact (@initUrl_of_fragment Samples.plainUri "http://host/app/" "terria"
           ltac:(discriminate)).
Defined.

Lemma generateInitializationUrl_string_only_for_json_witness :
  @generateInitializationUrl Samples.plainUri "http://host/app/" "extra.json5"
  = @InitFragment Samples.plainUri "http://host/app/" "extra.json5" /\
  exists prefix suffix, "data/Extra.JSON" = prefix +:+ suffix /\ toLowerCase suffix = ".json".
Proof.
  destruct (@generateInitializationUrl_string_only_for_json Samples.plainUri
              "http://host/app/" "extra.json5") as (Hfragment & _).
  destruct (@generateInitializationUrl_string_only_for_json Samples.plainUri
              "http://host/app/" "data/Extra.JSON") as (_ & Hstring).
  split.
  - apply Hfragment. intros Hsuffix.
    by apply lastFiveLowercased_suffix in Hsuffix.
  - by destruct (Hstring "http://host/app/data/Extra.JSON" eq_refl).
Defined.

Lemma initUrl_of_short_url_witness :
  (String.length "json" < 5)%nat /\
  @initUrl Samples.plainUri "http://host/app/" "json" = "http://host/app/init/json.json".
Proof.
  split; [simpl; lia |].
  exact (@initUrl_of_short_url Samples.plainUri "http://host/app/" "json"
           ltac:(simpl; lia)).
Defined.

(** ** Magda configurations, continued *)

Lemma getProp_throws (v : JsValue) (k : string) (e : JsError) :
  getProp v k = Throw e -> e = TypeError /\ isNullish v = true.
Proof. destruct v; simpl; intros [=]; by subst. Qed.

Lemma getProp_nullish (v : JsValue) (k : string) :
  isNullish v = true -> getProp v k = Throw TypeError.
Proof. by destruct v. Qed.

(** Replaces the local definitions that an inversion leaves by their
    bodies. *)
Ltac inline_lets := repeat match goal with x := _ |- _ => subst x end.

Section MagdaProperties.
Context {uriLib : UriLib}.

Lemma magdaMember_nullish (member : JsValue) :
  isNullish member = true -> magdaMember member = Throw TypeError.
Proof. intros Hnull. unfold magdaMember. by rewrite (getProp_nullish member "aspects" Hnull). Qed.

Lemma mapM_magdaMember_cases (members : list JsValue) :
  (Forall (fun member => isNullish member = false) members /\
   exists nodes,
     mapM magdaMember members = Normal nodes /\ Forall2 magdaNode members nodes) \/
  (Exists (fun member => isNullish member = true) members /\
   mapM magdaMember members = Throw TypeError).
Proof.
  induction members as [|member rest IH]; simpl.
  - left. split; [done |]. exists []. by split.
  - destruct (isNullish member) eqn:Hmember.
    + right. split; [by left |]. by rewrite magdaMember_nullish.
    + destruct (magdaMember_node member Hmember) as (node & Hrun & Hnode).
      rewrite Hrun. simpl.
      destruct IH as [(Hlive & nodes & Hrest & Hnodes) | (Hdead & Hrest)];
        rewrite Hrest; simpl.
      * left. split; [by constructor |]. exists (node :: nodes).
        split; [done | by constructor].
      * right. split; [by right | done].
Qed.

(** What [loadMagdaConfig] does once [aspects.group.members] is known to be
    an array. *)
Lemma loadMagdaConfig_run (config : JsValue) (members : list JsValue) (w : World) :
  propOf (propOf (propOf config "aspects") "group") "members" = JsArray members ->
  loadMagdaConfig config w
  = match mapM magdaMember members with
    | Normal nodes =>
        (Normal tt,
         set_terria
           (set_catalog_group
              (fun g => g ++ [(definition, JsObject {[ "members" := JsArray nodes ]})]))
           w)
    | Throw e => (Throw e, w)
    end.
Proof.
  intros Hmembers.
  assert (propOf (propOf (propOf config "aspects") "group") "members" <> JsUndefined)
    as Hgroup by (by rewrite Hmembers).
  apply propOf_defined_object in Hgroup as [Hgroup Hgroup_truthy].
  assert (propOf (propOf config "aspects") "group" <> JsUndefined)
    as Haspects by (by destruct (propOf (propOf config "aspects") "group")).
  apply propOf_defined_object in Haspects as [Haspects _].
  assert (propOf config "aspects" <> JsUndefined)
    as Hconfig by (by destruct (propOf config "aspects")).
  apply propOf_defined_object in Hconfig as [Hconfig _].
  unfold loadMagdaConfig, updateModelFromJson_catalog_group. run_eff.
  rewrite (getProp_propOf config _ Hconfig), (getProp_propOf _ "group" Haspects),
          Hgroup_truthy, (getProp_propOf _ "members" Hgroup), Hmembers.
  simpl. by destruct (mapM magdaMember members).
Qed.

(** X12.  Whatever [updateModelFromJson] does, [loadMagdaConfig] calls it
    at most once, as its last step, on the instance as it found it and with
    an object that holds a [members] array.  When [loadMagdaConfig] stops
    before that call it has changed nothing, and if it stops by throwing
    the error is a [TypeError]. *)
Theorem loadMagdaConfig_merges_last
    (merge : CommonStrata -> JsValue -> Eff World unit) (config : JsValue) (w : World) :
  loadMagdaConfig = loadMagdaConfigWith updateModelFromJson_catalog_group /\
  (loadMagdaConfigWith merge config w = (Throw TypeError, w) \/
   loadMagdaConfigWith merge config w = (Normal tt, w) \/
   exists nodes,
     loadMagdaConfigWith merge config w
     = merge definition (JsObject {[ "members" := JsArray nodes ]}) w).
Proof.
  split; [reflexivity |].
  unfold loadMagdaConfigWith. run_eff.
  destruct (getProp config "aspects") as [aspects|e] eqn:Haspects;
    [| apply getProp_throws in Haspects as [-> _]; by left].
  destruct (getProp aspects "group") as [group|e] eqn:Hgroup;
    [| apply getProp_throws in Hgroup as [-> _]; by left].
  destruct (truthy group) eqn:Htruthy; simpl; [| rewrite Htruthy; right; by left].
  rewrite (getProp_propOf group "members" (truthy_not_nullish _ Htruthy)).
  destruct (truthy (propOf group "members")) eqn:Hmembers; [| right; by left].
  destruct (propOf group "members") as [| | | | |members|]; simpl; try by left.
  destruct (mapM_magdaMember_cases members) as [(_ & nodes & -> & _) | (_ & ->)].
  - right. right. by exists nodes.
  - by left.
Qed.

(** X13.  A configuration whose [aspects] is an object without a truthy
    [group], or whose group has no truthy [members], is accepted and merges
    nothing. *)
Theorem loadMagdaConfig_without_members (config : JsValue) (w : World) :
  isNullish (propOf config "aspects") = false ->
  truthy (propOf (propOf (propOf config "aspects") "group") "members") = false ->
  loadMagdaConfig config w = (Normal tt, w).
Proof.
  intros Haspects Hfalsy.
  assert (isNullish config = false) as Hconfig by (by destruct config).
  unfold loadMagdaConfig. run_eff.
  rewrite (getProp_propOf config _ Hconfig), (getProp_propOf _ "group" Haspects).
  destruct (truthy (propOf (propOf config "aspects") "group")) eqn:Hgroup; simpl.
  - rewrite (getProp_propOf _ "members" (truthy_not_nullish _ Hgroup)).
    by rewrite Hfalsy.
  - by rewrite Hgroup.
Qed.

(** X14.  One member that is [null] or [undefined] makes [loadMagdaConfig]
    throw a [TypeError], and none of the members is merged. *)
Theorem loadMagdaConfig_nullish_member (config : JsValue) (members : list JsValue)
    (w : World) :
  propOf (propOf (propOf config "aspects") "group") "members" = JsArray members ->
  Exists (fun member => isNullish member = true) members ->
  loadMagdaConfig config w = (Throw TypeError, w).
Proof.
  intros Hmembers Hdead. rewrite (loadMagdaConfig_run config members w Hmembers).
  destruct (mapM_magdaMember_cases members) as [(Hlive & _) | (_ & ->)]; [| done].
  apply Exists_exists in Hdead as (member & Hin & Hnull).
  rewrite Forall_forall in Hlive. specialize (Hlive member Hin). congruence.
Qed.

(** X15.  A [members] that is truthy and not an array (a string, a number,
    an object) makes [loadMagdaConfig] throw a [TypeError] and merge
    nothing. *)
Theorem loadMagdaConfig_members_not_array (config : JsValue) (w : World) :
  let members := propOf (propOf (propOf config "aspects") "group") "members" in
  truthy members = true ->
  (forall items, members <> JsArray items) ->
  loadMagdaConfig config w = (Throw TypeError, w).
Proof.
  intros members Htruthy Hnot_array.
  assert (members <> JsUndefined) as Hgroup by (by destruct members).
  apply propOf_defined_object in Hgroup as [Hgroup Hgroup_truthy].
  assert (propOf (propOf config "aspects") "group" <> JsUndefined)
    as Haspects by (by destruct (propOf (propOf config "aspects") "group")).
  apply propOf_defined_object in Haspects as [Haspects _].
  assert (propOf config "aspects" <> JsUndefined)
    as Hconfig by (by destruct (propOf config "aspects")).
  apply propOf_defined_object in Hconfig as [Hconfig _].
  unfold loadMagdaConfig. run_eff.
  rewrite (getProp_propOf config _ Hconfig), (getProp_propOf _ "group" Haspects),
          Hgroup_truthy, (getProp_propOf _ "members" Hgroup).
  fold members. rewrite Htruthy.
  destruct members as [| | | | |items|]; simpl; try done.
  by destruct (Hnot_array items).
Qed.

(** X16.  The merged array has one entry per member, in order: a member
    without a truthy [aspects.terria] is not dropped, it leaves [undefined]
    at its position, and the other members leave an object. *)
Theorem loadMagdaConfig_keeps_positions (config : JsValue) (members : list JsValue)
    (w : World) :
  propOf (propOf (propOf config "aspects") "group") "members" = JsArray members ->
  Forall (fun member => isNullish member = false) members ->
  exists nodes,
    loadMagdaConfig config w
    = (Normal tt,
       set_terria
         (set_catalog_group
            (fun g => g ++ [(definition, JsObject {[ "members" := JsArray nodes ]})]))
         w) /\
    length nodes = length members /\
    forall i member node,
      members !! i = Some member ->
      nodes !! i = Some node ->
      (truthy (propOf member "aspects") = false \/
       truthy (propOf (propOf member "aspects") "terria") = false ->
       node = JsUndefined) /\
      (truthy (propOf member "aspects") = true ->
       truthy (propOf (propOf member "aspects") "terria") = true ->
       exists props, node = JsObject props).
Proof.
  intros Hmembers Hlive. rewrite (loadMagdaConfig_run config members w Hmembers).
  destruct (mapM_magdaMember_cases members) as [(_ & nodes & -> & Hnodes) | (Hdead & _)].
  - exists nodes. split; [done |]. split; [symmetry; by eapply Forall2_length |].
    intros i member node Hmember Hnode.
    pose proof (Forall2_lookup_lr _ _ _ _ _ _ Hnodes Hmember Hnode) as Hspec.
    split.
    + intros Hfalsy. inversion Hspec; subst; try done.
      all: inline_lets; destruct Hfalsy; congruence.
    + intros Haspects Hterria. inversion Hspec; subst; try congruence; eauto.
  - apply Exists_exists in Hdead as (member & Hin & Hnull).
    rewrite Forall_forall in Hlive. specialize (Hlive member Hin). congruence.
Qed.

(** X17.  In the node of a member that is not a group, the properties of
    [terria.definition] come last: one named [id], [name] or [type]
    replaces the member's id, the member's name or the terria type, and
    these three stand where the definition has no property of the name. *)
Theorem magdaMember_definition_overrides (member : JsValue) :
  let aspects := propOf member "aspects" in
  let terria := propOf aspects "terria" in
  truthy aspects = true ->
  truthy terria = true ->
  truthy (propOf aspects "group") = false ->
  exists node,
    magdaMember member = Normal (JsObject node) /\
    (forall k v,
       spreadProps (propOf terria "definition") !! k = Some v -> node !! k = Some v) /\
    (spreadProps (propOf terria "definition") !! "id" = None ->
     node !! "id" = Some (propOf member "id")) /\
    (spreadProps (propOf terria "definition") !! "name" = None ->
     node !! "name" = Some (propOf member "name")) /\
    (spreadProps (propOf terria "definition") !! "type" = None ->
     node !! "type" = Some (propOf terria "type")).
Proof.
  intros aspects terria Haspects Hterria Hgroup.
  assert (isNullish member = false) as Hmember by (by destruct member).
  destruct (magdaMember_node member Hmember) as (node & Hrun & Hnode).
  inversion Hnode as [| | |props ? ? _ _ Hnogroup Hprops]; subst;
    inline_lets; try congruence.
  eexists. split; [done |].
  split; [intros k v Hk; by apply lookup_union_Some_l |].
  repeat split; intros Hnone; by rewrite lookup_union_r.
Qed.

End MagdaProperties.

(** ** Start-up, continued *)

Section StartupProperties.
Context {uriLib : UriLib}.

(** The function that [onConfigLoaded] maps over [initializationUrls]. *)
Abbreviation loadInit baseUri :=
  (fun initializationUrl =>
     match initializationUrl with
     | JsString url => loadJson5_then (initUrl baseUri url) OnInitLoaded
     | _ => throw TypeError
     end).

Lemma forEach_stops (baseUri : URI) (urls : list string) (bad : JsValue)
    (rest : list JsValue) (w : World) :
  (forall url, bad <> JsString url) ->
  forEach (loadInit baseUri) ((JsString <$> urls) ++ bad :: rest) w
  = (Throw TypeError,
     set_pending
       (fun reqs => reqs ++ ((fun url => (initUrl baseUri url, OnInitLoaded)) <$> urls)) w).
Proof.
  intros Hbad. revert w. induction urls as [|url urls IH]; intros w; simpl.
  - rewrite set_pending_id. run_eff.
    destruct bad; try done. by destruct (Hbad s).
  - unfold loadJson5_then. run_eff. rewrite IH.
    destruct w. unfold set_pending. simpl. by rewrite <- app_assoc.
Qed.

(** X18.  A configuration that is [null] or [undefined] makes the
    configuration callback throw a [TypeError]; so does one without a
    truthy [aspects] whose [initializationUrls] is not an array, the
    configuration [{}] for one.  In both cases nothing is requested and
    nothing changes. *)
Theorem onConfigLoaded_rejects (baseUri : URI) (config : JsValue) (w : World) :
  (isNullish config = true ->
   runCallback (OnConfigLoaded baseUri) config w = (Throw TypeError, w)) /\
  (isNullish config = false ->
   truthy (propOf config "aspects") = false ->
   (forall items, propOf config "initializationUrls" <> JsArray items) ->
   runCallback (OnConfigLoaded baseUri) config w = (Throw TypeError, w)).
Proof.
  split.
  - intros Hnull. simpl. unfold onConfigLoaded. run_eff.
    by rewrite (getProp_nullish config "aspects" Hnull).
  - intros Hconfig Hfalsy Hnot_array. simpl. unfold onConfigLoaded. run_eff.
    rewrite !(getProp_propOf config _ Hconfig), Hfalsy.
    destruct (propOf config "initializationUrls") as [| | | | |items|]; try done.
    by destruct (Hnot_array items).
Qed.

(** X19.  An entry of [initializationUrls] that is not a string stops the
    configuration callback with a [TypeError]; the init files of the
    entries before it have been requested by then and stay requested, those
    of the entries after it are never requested. *)
Theorem onConfigLoaded_stops_at_bad_entry (baseUri : URI) (config : JsValue)
    (urls : list string) (bad : JsValue) (rest : list JsValue) (w : World) :
  isNullish config = false ->
  truthy (propOf config "aspects") = false ->
  propOf config "initializationUrls" = JsArray ((JsString <$> urls) ++ bad :: rest) ->
  (forall url, bad <> JsString url) ->
  runCallback (OnConfigLoaded baseUri) config w
  = (Throw TypeError,
     set_pending
       (fun reqs => reqs ++ ((fun url => (initUrl baseUri url, OnInitLoaded)) <$> urls)) w).
Proof.
  intros Hconfig Hfalsy Hurls Hbad. simpl. unfold onConfigLoaded.
  unfold mbind at 1, eff_bind_inst, eff_bind, eval.
  rewrite (getProp_propOf config "aspects" Hconfig), Hfalsy.
  unfold mbind, eff_bind_inst, eff_bind, eval.
  rewrite (getProp_propOf config "initializationUrls" Hconfig), Hurls.
  by apply forEach_stops.
Qed.

Lemma onInitLoaded_cases (initData : JsValue) (w : World) :
  (isNullish initData = true /\ onInitLoaded initData w = (Throw TypeError, w)) \/
  (isNullish initData = false /\
   onInitLoaded initData w
   = (Normal tt,
      set_terria
        (afterInit (propOf initData "catalog") (propOf initData "stories")) w)).
Proof.
  destruct (isNullish initData) eqn:Hnull.
  - left. split; [done |]. unfold onInitLoaded. run_eff.
    by rewrite (getProp_nullish initData "catalog" Hnull).
  - right. split; [done |]. by apply onInitLoaded_merges; apply getProp_propOf.
Qed.

Lemma resolve_init_accepted (i : nat) (url : string) (initData : JsValue) (w : World) :
  pending w !! i = Some (url, OnInitLoaded) ->
  isNullish initData = false ->
  resolve i initData w
  = Some (Normal tt,
          set_terria
            (afterInit (propOf initData "catalog") (propOf initData "stories"))
            (set_pending (delete i) w)).
Proof.
  intros Hreq Hlive. unfold resolve. rewrite Hreq. simpl.
  by destruct (onInitLoaded_cases initData (set_pending (delete i) w))
    as [(? & ?) | (_ & ->)]; [congruence |].
Qed.

(** X21.  An init file that is [null] or [undefined] makes the init
    callback throw a [TypeError] with nothing changed.  An init file without
    a [catalog] is accepted without any merge: it replaces the stories when
    it defines [stories] and changes nothing when it does not. *)
Theorem init_file_without_catalog (initData : JsValue) (w : World) :
  (isNullish initData = true ->
   runCallback OnInitLoaded initData w = (Throw TypeError, w)) /\
  (isNullish initData = false ->
   propOf initData "catalog" = JsUndefined ->
   runCallback OnInitLoaded initData w
   = (Normal tt,
      if notUndefined (propOf initData "stories")
      then set_terria (set_stories (propOf initData "stories")) w
      else w)).
Proof.
  split.
  - intros Hnull.
    by destruct (onInitLoaded_cases initData w) as [(_ & ?) | (? & _)]; [| congruence].
  - intros Hlive Hcatalog. simpl.
    destruct (onInitLoaded_cases initData w) as [(? & _) | (_ & ->)]; [congruence |].
    rewrite Hcatalog. unfold afterInit, set_terria, set_stories. simpl.
    destruct w as [this storage requests]. destruct this. simpl.
    by destruct (notUndefined (propOf initData "stories")).
Qed.

(** X22.  Which stories the instance ends up with depends on the order in
    which the init files arrive: of two init files that both define
    [stories], the one that arrives last decides, and the catalogs are
    merged in the order of arrival. *)
Theorem init_files_last_arrival_wins (w : World) (url0 url1 : string)
    (file0 file1 : JsValue) :
  pending w = [(url0, OnInitLoaded); (url1, OnInitLoaded)] ->
  isNullish file0 = false ->
  isNullish file1 = false ->
  notUndefined (propOf file0 "stories") = true ->
  notUndefined (propOf file1 "stories") = true ->
  notUndefined (propOf file0 "catalog") = true ->
  notUndefined (propOf file1 "catalog") = true ->
  exists first0 both01 first1 both10,
    resolve 0 file0 w = Some (Normal tt, first0) /\
    resolve 0 file1 first0 = Some (Normal tt, both01) /\
    resolve 1 file1 w = Some (Normal tt, first1) /\
    resolve 0 file0 first1 = Some (Normal tt, both10) /\
    stories (terria both01) = propOf file1 "stories" /\
    stories (terria both10) = propOf file0 "stories" /\
    catalog_group (terria both01)
    = catalog_group (terria w)
      ++ [(definition, JsObject {[ "members" := propOf file0 "catalog" ]});
          (definition, JsObject {[ "members" := propOf file1 "catalog" ]})] /\
    catalog_group (terria both10)
    = catalog_group (terria w)
      ++ [(definition, JsObject {[ "members" := propOf file1 "catalog" ]});
          (definition, JsObject {[ "members" := propOf file0 "catalog" ]})] /\
    pending both01 = [] /\
    pending both10 = [].
Proof.
  intros Hpending Hlive0 Hlive1 Hstories0 Hstories1 Hcatalog0 Hcatalog1.
  exists (set_terria (afterInit (propOf file0 "catalog") (propOf file0 "stories"))
            (set_pending (delete 0) w)).
  eexists.
  exists (set_terria (afterInit (propOf file1 "catalog") (propOf file1 "stories"))
            (set_pending (delete 1) w)).
  eexists.
  split; [apply (resolve_init_accepted 0 url0); by rewrite ?Hpending |].
  split; [apply (resolve_init_accepted 0 url1); simpl; by rewrite ?Hpending |].
  split; [apply (resolve_init_accepted 1 url1); by rewrite ?Hpending |].
  split; [apply (resolve_init_accepted 0 url0); simpl; by rewrite ?Hpending |].
  simpl. rewrite Hpending, Hstories0, Hstories1, Hcatalog0, Hcatalog1, <- !app_assoc.
  by repeat split.
Qed.

End StartupProperties.

(** ** The search box, continued *)

Module SearchBoxFurther.
Import SearchBox.

Lemma eqb_length_nonempty (s : string) : s <> "" -> (String.length s =? 0) = false.
Proof. by destruct s. Qed.

Lemma after_after (c : Component) t t' more more' :
  after (after c t more) t' more' = after c t' (more ++ more').
Proof. unfold after. simpl. by rewrite <- app_assoc. Qed.

Lemma after_same (c : Component) : after c (timer (searchWithDebounce c)) [] = c.
Proof. destruct c as [p [w t] l]. unfold after. simpl. by rewrite app_nil_r. Qed.

Lemma handleChange_schedules (event : ChangeEvent) (c : Component) :
  searchText (props c) <> "" ->
  handleChange event c
  = (Normal tt,
     after c (Some (wait (searchWithDebounce c))) [onSearchTextChanged (target_value event)]).
Proof.
  intros Htext. unfold handleChange, call_searchWithDebounce, call. run_eff.
  by rewrite (eqb_length_nonempty _ Htext).
Qed.

Lemma search_now (c : Component) : search c = (Normal tt, after c None [onDoSearch]).
Proof. reflexivity. Qed.

Lemma elapse_idle (ms : nat) (c : Component) :
  timer (searchWithDebounce c) = None -> elapse ms c = (Normal tt, c).
Proof. intros Hidle. unfold elapse. run_eff. by rewrite Hidle. Qed.

Lemma elapse_early (ms remaining : nat) (c : Component) :
  timer (searchWithDebounce c) = Some remaining ->
  ms < remaining ->
  elapse ms c = (Normal tt, after c (Some (remaining - ms)) []).
Proof.
  intros Htimer Hearly. unfold elapse. run_eff. rewrite Htimer.
  rewrite (proj2 (Nat.leb_gt remaining ms)) by done.
  unfold after. by rewrite app_nil_r.
Qed.

Lemma elapse_due (ms remaining : nat) (c : Component) :
  timer (searchWithDebounce c) = Some remaining ->
  remaining <= ms ->
  elapse ms c = (Normal tt, after c None [onDoSearch]).
Proof.
  intros Htimer Hdue. unfold elapse. run_eff. rewrite Htimer.
  by rewrite (proj2 (Nat.leb_le remaining ms)) by done.
Qed.

Lemma typing_debounced (keystrokes : list (nat * ChangeEvent)) (c : Component) :
  searchText (props c) <> "" ->
  keystrokes <> [] ->
  Forall (fun keystroke => keystroke.1 < wait (searchWithDebounce c)) keystrokes ->
  timer (searchWithDebounce c) = None \/
  timer (searchWithDebounce c) = Some (wait (searchWithDebounce c)) ->
  typing keystrokes c
  = (Normal tt,
     after c (Some (wait (searchWithDebounce c)))
       ((fun keystroke => onSearchTextChanged (target_value keystroke.2)) <$> keystrokes)).
Proof.
  intros Htext. revert c Htext.
  induction keystrokes as [|[pause event] rest IH]; intros c Htext Hsome Hpauses Htimer;
    [done |].
  apply Forall_cons in Hpauses as [Hpause Hrest]. simpl in Hpause.
  assert (exists t, elapse pause c = (Normal tt, after c t [])) as [t Helapse].
  { destruct Htimer as [Hidle | Hfull].
    - exists None. rewrite (elapse_idle pause c Hidle).
      by rewrite <- Hidle, after_same.
    - eexists. by apply (elapse_early pause _ c Hfull). }
  cbn [typing]. unfold mbind, eff_bind_inst, eff_bind. rewrite Helapse.
  rewrite handleChange_schedules by done. rewrite after_after. simpl.
  destruct rest as [|next rest]; [done |].
  rewrite IH; try done; [| by right].
  by rewrite after_after.
Qed.

(** X23.  While the user types into a box that holds text, with every
    pause shorter than the debounce interval, each change is reported by
    [onSearchTextChanged], no search is made, and one search stays
    scheduled a full interval after the last change.  It then runs once the
    interval has passed, not before. *)
Theorem typing_searches_once_after_the_last_change
    (keystrokes : list (nat * ChangeEvent)) (c : Component) (ms : nat) :
  let interval := wait (searchWithDebounce c) in
  let changes :=
    (fun keystroke => onSearchTextChanged (target_value keystroke.2)) <$> keystrokes in
  searchText (props c) <> "" ->
  keystrokes <> [] ->
  Forall (fun keystroke => keystroke.1 < interval) keystrokes ->
  timer (searchWithDebounce c) = None ->
  typing keystrokes c = (Normal tt, after c (Some interval) changes) /\
  (ms < interval ->
   (typing keystrokes;; elapse ms) c
   = (Normal tt, after c (Some (interval - ms)) changes)) /\
  (interval <= ms ->
   (typing keystrokes;; elapse ms) c
   = (Normal tt, after c None (changes ++ [onDoSearch]))).
Proof.
  intros interval changes Htext Hsome Hpauses Hidle.
  pose proof (typing_debounced keystrokes c Htext Hsome Hpauses (or_introl Hidle)) as Hrun.
  split; [done |].
  unfold mbind, eff_bind_inst, eff_bind. rewrite Hrun. split; intros Hms.
  - rewrite (elapse_early ms interval) by done.
    by rewrite after_after, app_nil_r.
  - rewrite (elapse_due ms interval) by done.
    by rewrite after_after.
Qed.

(** X24.  The Enter key searches at once and only once: after a change has
    scheduled a search, [onKeyDown] with key code 13 cancels it and calls
    [onDoSearch], and no time that passes afterwards makes a second call.
    Any other key does nothing. *)
Theorem onKeyDown_enter_searches_once (event : ChangeEvent) (c : Component)
    (keyCode : Z) (ms : nat) :
  searchText (props c) <> "" ->
  (handleChange event;; onKeyDown 13;; elapse ms) c
  = (Normal tt, after c None [onSearchTextChanged (target_value event); onDoSearch]) /\
  (keyCode <> 13%Z -> onKeyDown keyCode c = (Normal tt, c)).
Proof.
  intros Htext. split.
  - unfold mbind, eff_bind_inst, eff_bind.
    rewrite handleChange_schedules by done.
    change (onKeyDown 13) with search. rewrite search_now, after_after.
    by rewrite elapse_idle.
  - intros Hkey. unfold onKeyDown.
    by rewrite (proj2 (Z.eqb_neq keyCode 13)).
Qed.

(** X25.  After [search], [clearSearch] and [componentWillUnmount] no
    search is scheduled, whatever was scheduled before: time passing makes
    no call.  [clearSearch] reports the empty text, searches, and calls
    [onClear] when the prop is there. *)
Theorem no_search_left_scheduled (c : Component) (ms : nat) :
  (search;; elapse ms) c = (Normal tt, after c None [onDoSearch]) /\
  (clearSearch;; elapse ms) c
  = (Normal tt,
     after c None
       ([onSearchTextChanged ""; onDoSearch]
        ++ if has_onClear (props c) then [onClear] else [])) /\
  (componentWillUnmount;; elapse ms) c = (Normal tt, after c None []).
Proof.
  split; [| split].
  - unfold mbind, eff_bind_inst, eff_bind. rewrite search_now. by rewrite elapse_idle.
  - unfold clearSearch, search, removeDebounce, call. run_eff.
    destruct (has_onClear (props c)); unfold elapse; run_eff;
      unfold after; simpl; by rewrite <- !app_assoc.
  - unfold componentWillUnmount, removeDebounce, elapse. run_eff.
    unfold after. by rewrite app_nil_r.
Qed.

(** X26.  [componentDidUpdate] calls none of the callbacks in the props.
    It installs a wrapper that waits the new [debounceDuration] only when
    that has changed to a positive number.  When it is unchanged, absent or
    0 the component is left as it was: the interval in force stays, the
    default is not restored. *)
Theorem componentDidUpdate_interval (prevProps : Props) (c : Component) :
  exists c',
    componentDidUpdate prevProps c = (Normal tt, c') /\
    props c' = props c /\
    calls c' = calls c /\
    (forall duration,
       debounceDuration (props c) = Some duration ->
       debounceDuration prevProps <> Some duration ->
       0 < duration ->
       wait (searchWithDebounce c') = duration) /\
    (debounceDuration (props c) = debounceDuration prevProps \/
     debounceDuration (props c) = None \/
     debounceDuration (props c) = Some 0 ->
     c' = c).
Proof.
  unfold componentDidUpdate, removeDebounce. run_eff.
  destruct (debounceDuration (props c)) as [duration|] eqn:Hnew;
    [| exists c; repeat split; done].
  destruct (decide (debounceDuration prevProps = Some duration)) as [Hsame | Hchanged].
  - rewrite bool_decide_eq_true_2 by done. simpl.
    exists c. repeat split; try done. intros ? [= <-]. done.
  - rewrite bool_decide_eq_false_2 by done. simpl.
    destruct duration as [|duration]; simpl.
    + exists c. repeat split; try done. intros ? [= <-]. lia.
    + eexists. split; [reflexivity |]. repeat split; try done.
      * by intros ? [= <-].
      * intros [Hsame | [? | ?]]; [| done | done]. by destruct Hchanged.
Qed.

End SearchBoxFurther.

(** ** The constructor *)

Lemma lastIndexOf_from_suffix (c : ascii) (p : string) (i found : Z) :
  lastIndexOf_from c (p +:+ String c "") i found = (i + Z.of_nat (String.length p))%Z.
Proof.
  revert i found. induction p as [|x p IH]; intros i found.
  - simpl. rewrite Ascii.eqb_refl. lia.
  - change (lastIndexOf_from c (String x (p +:+ String c "")) i found
            = (i + Z.of_nat (S (String.length p)))%Z).
    cbn [lastIndexOf_from]. rewrite IH. lia.
Qed.

Lemma lastIndexOf_from_last (c : ascii) (s : string) (i found : Z) :
  (found < i)%Z ->
  s <> "" ->
  lastIndexOf_from c s i found = (i + Z.of_nat (String.length s) - 1)%Z ->
  exists p, s = p +:+ String c "".
Proof.
  revert i found. induction s as [|x s IH]; intros i found Hfound Hsome Hlast; [done |].
  destruct s as [|y s].
  - simpl in Hlast. destruct (Ascii.eqb_spec x c) as [-> | _]; [by exists "" | lia].
  - assert (lastIndexOf_from c (String y s) (i + 1)%Z (if Ascii.eqb x c then i else found)
            = (i + 1 + Z.of_nat (String.length (String y s)) - 1)%Z) as Hrest.
    { etransitivity; [exact Hlast |]. cbn [String.length]. lia. }
    destruct (IH (i + 1)%Z (if Ascii.eqb x c then i else found)) as [p Hp];
      [destruct (Ascii.eqb x c); lia | done | exact Hrest |].
    exists (String x p). change (String x (String y s) = String x (p +:+ String c "")).
    by f_equal.
Qed.

Lemma ends_with_slash (url : string) :
  url <> "" ->
  (lastIndexOf "/" url =? Z.of_nat (String.length url) - 1)%Z = true
  <-> exists prefix, url = prefix +:+ "/".
Proof.
  intros Hsome. rewrite Z.eqb_eq. unfold lastIndexOf. split.
  - intros Hlast. apply (lastIndexOf_from_last "/" url 0 (-1)); [lia | done | lia].
  - intros [prefix ->]. rewrite lastIndexOf_from_suffix, length_append. simpl. lia.
Qed.

(** X27.  The [baseUrl] of a new instance always ends in a slash: a given
    URL that ends in one is kept, one that does not gets a slash appended,
    and with no URL or the empty one the default ["build/TerriaJS/"] is
    used. *)
Theorem constructor_baseUrl_ends_in_slash (window_ga : bool) (options : TerriaOptions) :
  (exists prefix, baseUrl (constructor window_ga options) = prefix +:+ "/") /\
  (forall prefix,
     options_baseUrl options = Some (prefix +:+ "/") ->
     baseUrl (constructor window_ga options) = prefix +:+ "/") /\
  (forall url,
     options_baseUrl options = Some url ->
     url <> "" ->
     ~ (exists prefix, url = prefix +:+ "/") ->
     baseUrl (constructor window_ga options) = url +:+ "/") /\
  (options_baseUrl options = None \/ options_baseUrl options = Some "" ->
   baseUrl (constructor window_ga options) = "build/TerriaJS/").
Proof.
  unfold constructor. simpl.
  destruct (options_baseUrl options) as [url|]; simpl.
  - destruct (String.eqb_spec url "") as [-> | Hsome]; simpl.
    + split; [by exists "build/TerriaJS" |].
      split; [intros prefix [= Hempty]; by destruct prefix |].
      split; [by intros ? [= <-] |]. done.
    + pose proof (ends_with_slash url Hsome) as Hends.
      destruct (lastIndexOf "/" url =? Z.of_nat (String.length url) - 1)%Z; simpl.
      * split; [by apply Hends |].
        split; [by intros prefix [= ->] |].
        split; [intros ? [= <-] _ Hnot; destruct Hnot; by apply Hends |].
        intros [? | [= ?]]; done.
      * split; [by exists url |].
        split; [intros prefix [= ->]; assert (false = true) by (apply Hends; eauto); done |].
        split; [by intros ? [= <-] |].
        intros [? | [= ?]]; done.
  - split; [by exists "build/TerriaJS" |]. repeat split; done.
Qed.

(** ** The further properties at the sample data *)

Lemma localProperty_effects_witness :
  (exists result,
     @getLocalProperty Samples.plainUri "basemap" (Samples.browser (Blocked SecurityError))
     = (Normal result, Samples.browser (Blocked SecurityError))) /\
  exists w',
    @setLocalProperty Samples.plainUri "basemap" (LocalString "Bing Maps")
      (Samples.browser (Storage ∅)) = (Normal true, w') /\
    terria w' = terria (Samples.browser (Storage ∅)) /\
    pending w' = [].
Proof.
  split.
  - destruct (@localProperty_effects Samples.plainUri "basemap" (LocalString "Bing Maps")
                (Samples.browser (Blocked SecurityError))) as (Hget & _).
    exact Hget.
  - destruct (@localProperty_effects Samples.plainUri "basemap" (LocalString "Bing Maps")
                (Samples.browser (Storage ∅))) as (_ & Hset).
    eexists. split; [reflexivity |].
    destruct (Hset true _ eq_refl) as (Hterria & Hpending & _).
    by split.
Defined.

Lemma setLocalProperty_other_key_witness :
  exists w',
    @setLocalProperty Samples.plainUri "basemap" (LocalString "Bing Maps")
      (Samples.browser (Storage {[ "map.viewermode" := "true" ]}))
    = (Normal true, w') /\
    fst (getLocalProperty "viewermode" w') = Normal (JsBool true).
Proof.
  eexists. split; [reflexivity |].
  exact (@setLocalProperty_other_key Samples.plainUri "basemap" "viewermode"
           (LocalString "Bing Maps")
           (Samples.browser (Storage {[ "map.viewermode" := "true" ]})) _ true
           ltac:(discriminate) eq_refl).
Defined.

Lemma setLocalProperty_overwrites_witness :
  exists w1 w2,
    @setLocalProperty Samples.plainUri "basemap" (LocalString "Bing Maps")
      (Samples.browser (Storage ∅)) = (Normal true, w1) /\
    setLocalProperty "basemap" (LocalBool false) w1 = (Normal true, w2) /\
    getLocalProperty "basemap" w2 = (Normal (JsBool false), w2).
Proof.
  exact (@setLocalProperty_overwrites Samples.plainUri "basemap"
           (LocalString "Bing Maps") (LocalBool false)
           (Samples.browser (Storage ∅)) ∅ eq_refl).
Defined.

Lemma unnamed_instance_shares_keys_witness :
  exists w',
    setLocalProperty "basemap" (LocalString "Bing Maps") Samples.unnamedBrowser
    = (Normal true, w') /\
    fst (getLocalProperty "basemap" (set_terria (fun _ => Samples.namedUndefined) w'))
    = Normal (JsString "Bing Maps").
Proof.
  eexists. split; [reflexivity |].
  exact (@unnamed_instance_shares_keys Samples.plainUri "basemap"
           (LocalString "Bing Maps") Samples.unnamedBrowser _ Samples.namedUndefined
           eq_refl eq_refl eq_refl).
Defined.

Lemma loadMagdaConfig_without_members_witness :
  @loadMagdaConfig Samples.plainUri Samples.bareMagdaConfig (Samples.browser Missing)
  = (Normal tt, Samples.browser Missing).
Proof.
  exact (@loadMagdaConfig_without_members Samples.plainUri Samples.bareMagdaConfig
           (Samples.browser Missing) eq_refl eq_refl).
Defined.

Lemma loadMagdaConfig_nullish_member_witness :
  @loadMagdaConfig Samples.plainUri Samples.nullMemberConfig (Samples.browser Missing)
  = (Throw TypeError, Samples.browser Missing).
Proof.
  apply (@loadMagdaConfig_nullish_member Samples.plainUri Samples.nullMemberConfig
           [Samples.plainMember; JsNull]); [reflexivity |].
  right. by left.
Defined.

Lemma loadMagdaConfig_members_not_array_witness :
  @loadMagdaConfig Samples.plainUri Samples.stringMembersConfig (Samples.browser Missing)
  = (Throw TypeError, Samples.browser Missing).
Proof.
  apply (@loadMagdaConfig_members_not_array Samples.plainUri Samples.stringMembersConfig);
    [reflexivity | discriminate].
Defined.

Lemma loadMagdaConfig_keeps_positions_witness :
  exists nodes,
    @loadMagdaConfig Samples.plainUri Samples.magdaConfig (Samples.browser Missing)
    = (Normal tt,
       set_terria
         (set_catalog_group
            (fun g => g ++ [(definition, JsObject {[ "members" := JsArray nodes ]})]))
         (Samples.browser Missing)) /\
    length nodes = 2 /\
    nodes !! 1 = Some JsUndefined.
Proof.
  destruct (@loadMagdaConfig_keeps_positions Samples.plainUri Samples.magdaConfig
              [Samples.groupMember; JsObject ∅] (Samples.browser Missing) eq_refl
              ltac:(repeat constructor))
    as (nodes & Hrun & Hlength & Hnodes).
  exists nodes. split; [exact Hrun |]. split; [exact Hlength |].
  destruct (nodes !! 1) as [node|] eqn:Hnode.
  - destruct (Hnodes 1 (JsObject ∅) node eq_refl Hnode) as (Hundefined & _).
    f_equal. apply Hundefined. by left.
  - apply lookup_ge_None in Hnode. simpl in Hlength. lia.
Defined.

Lemma magdaMember_definition_overrides_witness :
  exists node,
    magdaMember Samples.overridingMember = Normal (JsObject node) /\
    node !! "id" = Some (JsString "rivers") /\
    node !! "name" = Some (JsString "Rivers").
Proof.
  destruct (magdaMember_definition_overrides Samples.overridingMember
              eq_refl eq_refl eq_refl)
    as (node & Hrun & Hoverride & _ & Hname & _).
  exists node. split; [exact Hrun |]. split.
  - by apply Hoverride.
  - by apply Hname.
Defined.

Lemma onConfigLoaded_rejects_witness :
  @runCallback Samples.plainUri (@OnConfigLoaded Samples.plainUri "http://host/app/") JsNull
    (Samples.browser Missing)
  = (Throw TypeError, Samples.browser Missing) /\
  @runCallback Samples.plainUri (@OnConfigLoaded Samples.plainUri "http://host/app/") (JsObject ∅)
    (Samples.browser Missing)
  = (Throw TypeError, Samples.browser Missing).
Proof.
  split.
  - destruct (@onConfigLoaded_rejects Samples.plainUri "http://host/app/" JsNull
                (Samples.browser Missing)) as (Hnull & _).
    by apply Hnull.
  - destruct (@onConfigLoaded_rejects Samples.plainUri "http://host/app/" (JsObject ∅)
                (Samples.browser Missing)) as (_ & Hobject).
    by apply Hobject.
Defined.

Lemma onConfigLoaded_stops_at_bad_entry_witness :
  @runCallback Samples.plainUri (@OnConfigLoaded Samples.plainUri "http://host/app/") Samples.badEntryConfig
    (Samples.browser Missing)
  = (Throw TypeError,
     set_pending (fun _ => [("http://host/app/init/terria.json", OnInitLoaded)])
       (Samples.browser Missing)).
Proof.
  exact (@onConfigLoaded_stops_at_bad_entry Samples.plainUri "http://host/app/"
           Samples.badEntryConfig ["terria"] (JsNumber 5) [JsString "more"]
           (Samples.browser Missing) eq_refl eq_refl eq_refl ltac:(discriminate)).
Defined.

Lemma init_file_without_catalog_witness :
  @runCallback Samples.plainUri OnInitLoaded JsNull Samples.awaitingTwo
  = (Throw TypeError, Samples.awaitingTwo) /\
  @runCallback Samples.plainUri OnInitLoaded Samples.storiesOnlyFile Samples.awaitingTwo
  = (Normal tt,
     set_terria (set_stories (JsArray [JsObject {[ "title" := JsString "Tour" ]}]))
       Samples.awaitingTwo).
Proof.
  split.
  - destruct (@init_file_without_catalog Samples.plainUri JsNull Samples.awaitingTwo)
      as (Hnull & _).
    by apply Hnull.
  - destruct (@init_file_without_catalog Samples.plainUri Samples.storiesOnlyFile
                Samples.awaitingTwo) as (_ & Hstories).
    exact (Hstories eq_refl eq_refl).
Defined.

Lemma init_files_last_arrival_wins_witness :
  exists first0 both01 first1 both10,
    resolve 0 Samples.initFile Samples.awaitingTwo = Some (Normal tt, first0) /\
    resolve 0 Samples.otherInitFile first0 = Some (Normal tt, both01) /\
    resolve 1 Samples.otherInitFile Samples.awaitingTwo = Some (Normal tt, first1) /\
    resolve 0 Samples.initFile first1 = Some (Normal tt, both10) /\
    stories (terria both01) = JsArray [JsObject {[ "title" := JsString "Flood" ]}] /\
    stories (terria both10) = JsArray [JsObject {[ "title" := JsString "Tour" ]}].
Proof.
  destruct (@init_files_last_arrival_wins Samples.plainUri Samples.awaitingTwo
              "http://host/app/init/a.json" "http://host/app/init/b.json"
              Samples.initFile Samples.otherInitFile
              eq_refl eq_refl eq_refl eq_refl eq_refl eq_refl eq_refl)
    as (first0 & both01 & first1 & both10 & H0 & H01 & H1 & H10 & Hs01 & Hs10 & _).
  exists first0, both01, first1, both10. by repeat split.
Defined.

Lemma typing_searches_once_after_the_last_change_witness :
  (SearchBox.typing Samples.keystrokes;; SearchBox.elapse 1000)
    (Samples.idleSearchBox "p")
  = (Normal tt,
     SearchBox.after (Samples.idleSearchBox "p") None
       [SearchBox.onSearchTextChanged "pe"; SearchBox.onSearchTextChanged "per";
        SearchBox.onSearchTextChanged "pert"; SearchBox.onDoSearch]).
Proof.
  destruct (SearchBoxFurther.typing_searches_once_after_the_last_change
              Samples.keystrokes (Samples.idleSearchBox "p") 1000
              ltac:(discriminate) ltac:(discriminate)
              ltac:(repeat constructor; simpl; unfold SearchBox.DEBOUNCE_INTERVAL; lia)
              eq_refl)
    as (_ & _ & Hdue).
  apply Hdue. reflexivity.
Defined.

Lemma onKeyDown_enter_searches_once_witness :
  (SearchBox.handleChange {| SearchBox.target_value := "pe" |};;
   SearchBox.onKeyDown 13;; SearchBox.elapse 5000) (Samples.idleSearchBox "p")
  = (Normal tt,
     SearchBox.after (Samples.idleSearchBox "p") None
       [SearchBox.onSearchTextChanged "pe"; SearchBox.onDoSearch]).
Proof.
  destruct (SearchBoxFurther.onKeyDown_enter_searches_once
              {| SearchBox.target_value := "pe" |} (Samples.idleSearchBox "p") 13 5000
              ltac:(discriminate)) as (Henter & _).
  exact Henter.
Defined.

Lemma componentDidUpdate_interval_witness :
  exists c',
    SearchBox.componentDidUpdate
      {| SearchBox.searchText := "p"; SearchBox.debounceDuration := None;
         SearchBox.has_onClear := true |}
      (Samples.idleSearchBox "p")
    = (Normal tt, c') /\
    SearchBox.wait (SearchBox.searchWithDebounce c') = 300 /\
    SearchBox.calls c' = [].
Proof.
  destruct (SearchBoxFurther.componentDidUpdate_interval
              {| SearchBox.searchText := "p"; SearchBox.debounceDuration := None;
                 SearchBox.has_onClear := true |}
              (Samples.idleSearchBox "p"))
    as (c' & Hrun & _ & Hcalls & Hchanged & _).
  exists c'. split; [exact Hrun |]. split; [| exact Hcalls].
  apply Hchanged; [reflexivity | discriminate | lia].
Defined.

Lemma constructor_baseUrl_ends_in_slash_witness :
  baseUrl (constructor false {| options_baseUrl := Some "build/TerriaJS";
                                options_analytics := None |})
  = "build/TerriaJS/" /\
  baseUrl (constructor false {| options_baseUrl := Some "/"; options_analytics := None |})
  = "/".
Proof.
  split.
  - destruct (constructor_baseUrl_ends_in_slash false
                {| options_baseUrl := Some "build/TerriaJS"; options_analytics := None |})
      as (_ & _ & Happended & _).
    apply (Happended "build/TerriaJS"); [reflexivity | discriminate |].
    intros [prefix Hprefix].
    assert ((lastIndexOf "/" "build/TerriaJS" =? Z.of_nat (String.length "build/TerriaJS") - 1)%Z
            = true) as Habsurd
      by (apply ends_with_slash; [discriminate | by exists prefix]).
    discriminate Habsurd.
  - destruct (constructor_baseUrl_ends_in_slash false
                {| options_baseUrl := Some "/"; options_analytics := None |})
      as (_ & Hkept & _).
    exact (Hkept "" eq_refl).
Defined.
